(** * xmlrecords: flattening XML trees into flat records

    A shallow embedding of [src/xmlrecords/src/xmlrecords.py].

    Data model.
    - A Python [str] is a [string]; its characters stand for the code
      points below 256.
    - A Python [dict] keeps insertion order and [validate] observes it, so a
      dict is an association list in insertion order ([dict]); the Python
      operations used by the source ([d[k] = v], [d.update], [len],
      [d.keys()]) are written out on that list.
    - A Python [set] of keys is a [gset string].
    - An [ElementTree.Element] is a record-like inductive [Element] with its
      tag, optional text, attribute dict and children.
    - The source mutates the dict [d] it is handed and may raise: the
      functions are computations of the monad [M], which threads the dict
      and keeps the mutated dict when an exception is raised. *)

From Stdlib Require Import Ascii String ZArith.
From stdpp Require Import base option list strings gmap.

Local Open Scope Z_scope.

(** ** Python dictionaries as insertion-ordered association lists *)

Definition dict : Type := list (string * string).

(** [d.keys()], in insertion order. *)
Definition keys (d : dict) : list string := d.*1.

(** [len(d)]. *)
Definition len (d : dict) : Z := Z.of_nat (length d).

(** [d[k]] as a lookup: the value stored under [k], if any. *)
Fixpoint dict_get (d : dict) (k : string) : option string :=
  match d with
  | [] => None
  | (k', v') :: r => if decide (k' = k) then Some v' else dict_get r k
  end.

(** [d[k] = v]: an existing key keeps its position and takes the new value,
    a new key is appended. *)
Fixpoint dict_setitem (d : dict) (k v : string) : dict :=
  match d with
  | [] => [(k, v)]
  | (k', v') :: r =>
      if decide (k' = k) then (k', v) :: r else (k', v') :: dict_setitem r k v
  end.

(** [d1.update(d2)]: the items of [d2] are stored into [d1] one by one, in
    the order of [d2]. *)
Definition dict_update (d1 d2 : dict) : dict :=
  foldl (fun d kv => dict_setitem d kv.1 kv.2) d1 d2.

(** A dict display or comprehension [{k: v for ...}]: the items are stored
    into an empty dict one by one. *)
Definition dict_of_items (items : list (string * string)) : dict :=
  dict_update [] items.

(** The two lists of keys share no key. *)
Definition keys_disjoint (d1 d2 : dict) : Prop :=
  forall k, k ∈ keys d1 -> k ∈ keys d2 -> False.

(** ** Exceptions and the dict-threading monad *)

Inductive exn : Type :=
| XMLParsingError (common_keys : gset string)
| AssertionError (tag : string)
| XMLValidationError (i : nat) (record_keys expected_keys : list string).

Inductive result (A : Type) : Type :=
| Ok (a : A)
| Raise (e : exn).
Arguments Ok {A} a.
Arguments Raise {A} e.

(** A computation on the mutable dict: from the dict before to the dict
    after and the outcome.  The dict after is kept on [Raise] too. *)
Definition M (A : Type) : Type := dict -> dict * result A.

Definition ret {A} (a : A) : M A := fun d => (d, Ok a).

Definition raise {A} (e : exn) : M A := fun d => (d, Raise e).

Definition bind {A B} (m : M A) (f : A -> M B) : M B :=
  fun d =>
    match m d with
    | (d', Ok a) => f a d'
    | (d', Raise e) => (d', Raise e)
    end.

(** A call that does not touch the dict. *)
Definition lift {A} (r : result A) : M A := fun d => (d, r).

Notation "'let*' x ':=' m 'in' k" := (bind m (fun x => k))
  (at level 10, x name, m at level 100, k at level 200).
Notation "'let*' '_' ':=' m 'in' k" := (bind m (fun _ => k))
  (at level 10, m at level 100, k at level 200).

(** ** Collision-safe merger (source lines 10-17) *)

Definition _update_dict_nocollision (d2 : dict) : M unit :=
  fun d1 =>
    let expected_length := len d1 + len d2 in
    let d1' := dict_update d1 d2 in
    if negb (len d1' =? expected_length) then
      let common_keys : gset string :=
        list_to_set (keys d1') ∩ list_to_set (keys d2) in
      (d1', Raise (XMLParsingError common_keys))
    else (d1', Ok tt).

(** ** Tags (source lines 20-25) *)

(** [sub in s]. *)
Fixpoint str_in (sub s : string) : bool :=
  String.prefix sub s
  || match s with
     | EmptyString => false
     | String _ r => str_in sub r
     end.

(** [s[n:]]. *)
Fixpoint str_drop (n : nat) (s : string) : string :=
  match n, s with
  | O, _ => s
  | S n', String _ r => str_drop n' r
  | S _, EmptyString => EmptyString
  end.

(** [s.rpartition(sep)] for a non-empty [sep]: split at the last occurrence
    of [sep]; when there is none the result is [("", "", s)]. *)
Fixpoint rpartition (s sep : string) : string * string * string :=
  match s with
  | EmptyString => ("", "", "")
  | String a r =>
      match rpartition r sep with
      | (h, EmptyString, _) =>
          if String.prefix sep s
          then ("", sep, str_drop (String.length sep) s)
          else ("", "", s)
      | (h, m, t) => (String a h, m, t)
      end
  end.

Definition _process_tag (tag : string) (remove_namespace : bool) : result string :=
  if remove_namespace then
    let '(_, _, tag) := rpartition tag "}" in
    if str_in "{" tag || str_in "}" tag then Raise (AssertionError tag)
    else Ok tag
  else Ok tag.

(** ** XML trees *)

(** [ElementTree.Element]: [tag], [text] ([None] when absent), [attrib] and
    the children in document order. *)
#[local] Unset Elimination Schemes.
Inductive Element : Type :=
| mkElement (tag : string) (text : option string) (attrib : dict)
            (children : list Element).
#[local] Set Elimination Schemes.

Definition tag (node : Element) : string :=
  match node with mkElement t _ _ _ => t end.
Definition text (node : Element) : option string :=
  match node with mkElement _ t _ _ => t end.
Definition attrib (node : Element) : dict :=
  match node with mkElement _ _ a _ => a end.
Definition children (node : Element) : list Element :=
  match node with mkElement _ _ _ c => c end.

(** ** [str.strip()] *)

(** The white space of [str.strip()] among the code points below 256:
    tab to carriage return, the four separators 28-31, space, NEL and
    the no-break space. *)
Definition py_isspace (c : ascii) : bool :=
  let n := N_of_ascii c in
  ((9 <=? n) && (n <=? 13) || (28 <=? n) && (n <=? 32)
   || (n =? 133) || (n =? 160))%N.

Fixpoint lstrip (l : list ascii) : list ascii :=
  match l with
  | c :: r => if py_isspace c then lstrip r else l
  | [] => []
  end.

Definition py_strip (s : string) : string :=
  string_of_list_ascii
    (rev (lstrip (rev (lstrip (list_ascii_of_string s))))).

(** ** Node flattener (source lines 36-61) *)

(** The key of the text entry (the right-hand side of line 49). *)
Definition text_key (node_tag : string) (prefix : option string)
    (rm_namespace : bool) : result string :=
  match prefix with
  | None => _process_tag node_tag rm_namespace
  | Some p => Ok p
  end.

(** The key of an attribute entry (the key expression of the comprehension
    on line 53). *)
Definition attrib_key (prefix : option string) (sep k : string) : string :=
  match prefix with
  | None => k
  | Some p => p +:+ sep +:+ k
  end.

Fixpoint _update_dict_from_node
    (node : Element) (prefix : option string) (sep : string)
    (max_depth : option Z) (strip rm_namespace : bool)
    (skip_child_tag : option string) {struct node} : M unit :=
  match node with
  | mkElement node_tag node_text node_attrib node_children =>
    let* _ :=
      match node_text with
      | Some t =>
          let text := if strip then py_strip t else t in
          if (Z.of_nat (String.length text) >? 0) then
            let* k := lift (text_key node_tag prefix rm_namespace) in
            _update_dict_nocollision [(k, text)]
          else ret tt
      | None => ret tt
      end in
    let* _ :=
      if len node_attrib >? 0 then
        _update_dict_nocollision
          (dict_of_items
             (map (fun kv => (attrib_key prefix sep kv.1, kv.2)) node_attrib))
      else ret tt in
    if (match max_depth with None => true | Some n => n >? 0 end)
       && (Z.of_nat (length node_children) >? 0) then
      let max_depth :=
        match max_depth with None => None | Some n => Some (n - 1) end in
      (fix for_child (cs : list Element) : M unit :=
         match cs with
         | [] => ret tt
         | child :: cs' =>
             let* ctag := lift (_process_tag (tag child) rm_namespace) in
             let* _ :=
               if match skip_child_tag with
                  | None => true
                  | Some s => negb (bool_decide (ctag = s))
                  end
               then
                 let k_ :=
                   match prefix with
                   | None => None
                   | Some p => Some (p +:+ sep +:+ ctag)
                   end in
                 _update_dict_from_node child k_ sep max_depth strip
                   rm_namespace None
               else ret tt in
             for_child cs'
         end) node_children
    else ret tt
  end.

(** The three blocks of [_update_dict_from_node] under names of their own,
    for the statements below; [update_dict_from_node_blocks] relates them
    to the function. *)

(** Lines 46-50: the text entry. *)
Definition text_block (node_tag : string) (node_text : option string)
    (prefix : option string) (strip rm_namespace : bool) : M unit :=
  match node_text with
  | Some t =>
      let text := if strip then py_strip t else t in
      if (Z.of_nat (String.length text) >? 0) then
        let* k := lift (text_key node_tag prefix rm_namespace) in
        _update_dict_nocollision [(k, text)]
      else ret tt
  | None => ret tt
  end.

(** Lines 51-54: the attribute entries. *)
Definition attrib_block (node_attrib : dict) (prefix : option string)
    (sep : string) : M unit :=
  if len node_attrib >? 0 then
    _update_dict_nocollision
      (dict_of_items
         (map (fun kv => (attrib_key prefix sep kv.1, kv.2)) node_attrib))
  else ret tt.

(** Lines 58-61: the body of the loop over the children, [max_depth] being
    the decremented depth. *)
Definition child_block (prefix : option string) (sep : string)
    (max_depth : option Z) (strip rm_namespace : bool)
    (skip_child_tag : option string) (child : Element) : M unit :=
  let* ctag := lift (_process_tag (tag child) rm_namespace) in
  if match skip_child_tag with
     | None => true
     | Some s => negb (bool_decide (ctag = s))
     end
  then
    let k_ :=
      match prefix with
      | None => None
      | Some p => Some (p +:+ sep +:+ ctag)
      end in
    _update_dict_from_node child k_ sep max_depth strip rm_namespace None
  else ret tt.

(** Line 57: the loop over the children. *)
Fixpoint children_block (prefix : option string) (sep : string)
    (max_depth : option Z) (strip rm_namespace : bool)
    (skip_child_tag : option string) (cs : list Element) : M unit :=
  match cs with
  | [] => ret tt
  | child :: cs' =>
      let* _ := child_block prefix sep max_depth strip rm_namespace
                  skip_child_tag child in
      children_block prefix sep max_depth strip rm_namespace skip_child_tag cs'
  end.

(** Line 55: whether the children are visited. *)
Definition descends (max_depth : option Z) (node_children : list Element) : bool :=
  (match max_depth with None => true | Some n => n >? 0 end)
  && (Z.of_nat (length node_children) >? 0).

(** Line 56. *)
Definition decrement (max_depth : option Z) : option Z :=
  match max_depth with None => None | Some n => Some (n - 1) end.

(** The flat record of a node: what flattening the node into an empty dict
    leaves there. *)
Definition flatten (node : Element) (prefix : option string) (sep : string)
    (max_depth : option Z) (strip rm_namespace : bool)
    (skip_child_tag : option string) : result dict :=
  match _update_dict_from_node node prefix sep max_depth strip rm_namespace
          skip_child_tag [] with
  | (d, Ok _) => Ok d
  | (_, Raise e) => Raise e
  end.

(** The attribute entries of a node: the items of the comprehension on
    line 53, in the order of [node.attrib]. *)
Definition attrib_entries (prefix : option string) (sep : string)
    (node_attrib : dict) : dict :=
  map (fun kv => (attrib_key prefix sep kv.1, kv.2)) node_attrib.

(** A node without its children: its tag, text and attributes only. *)
Definition childless (node : Element) : Element :=
  mkElement (tag node) (text node) (attrib node) [].

(** Whether the test on line 59 skips [child] when [skip_child_tag] is
    [s]. *)
Definition skipped (rm_namespace : bool) (s : string) (child : Element) : bool :=
  match _process_tag (tag child) rm_namespace with
  | Ok ctag => bool_decide (ctag = s)
  | Raise _ => false
  end.

(** The children that the test on line 59 lets through. *)
Definition kept_children (rm_namespace : bool) (s : string)
    (cs : list Element) : list Element :=
  filter (fun c => skipped rm_namespace s c = false) cs.

(** ** Path builder (source lines 64-70) *)

Definition _list_to_path (chunks : list string) (ns : string) : string :=
  let ns_ := "{" +:+ ns +:+ "}" in
  String.concat "/" (map (fun c => ns_ +:+ c) chunks).

Definition _list_to_prefix (chunks : list string) (sep : string) : option string :=
  if Z.of_nat (length chunks) >? 0 then Some (String.concat sep chunks) else None.

(** ** Record assembler (source lines 73-170) *)

Section Parse.

(** [Element.findall(path)] of the standard library: the nodes matching
    [path] below a node, in document order.  [Element.find(path)] is its
    first result, or [None]. *)
Variable findall : Element -> string -> list Element.

Definition find (node : Element) (path : string) : option Element :=
  head (findall node path).

Variables (sep : string) (strip_text remove_namespace : bool)
          (namespace : string).

(** The loop over [meta_paths] (lines 120-134), on the dict [meta_d]. *)
Fixpoint parse_meta (tree : Element) (meta_prefix : bool)
    (meta_max_depth : option Z) (meta_paths : list (list string)) : M unit :=
  match meta_paths with
  | [] => ret tt
  | m_path :: rest =>
      let m_path_ := _list_to_path m_path namespace in
      let* _ :=
        match find tree m_path_ with
        | Some m_node =>
            let prefix :=
              if meta_prefix then _list_to_prefix m_path sep else None in
            _update_dict_from_node m_node prefix sep meta_max_depth
              strip_text remove_namespace None
        | None => ret tt
        end in
      parse_meta tree meta_prefix meta_max_depth rest
  end.

(** The loop over [subrow_nodes] (lines 157-169): each subrow starts from
    a copy of [row_d] and appends its record to [records]. *)
Fixpoint parse_subrows (row_d : dict) (prefix : option string)
    (rows_max_depth : option Z) (subrow_nodes : list Element)
    (records : list dict) : result (list dict) :=
  match subrow_nodes with
  | [] => Ok records
  | sr_node :: rest =>
      match _update_dict_from_node sr_node prefix sep rows_max_depth
              strip_text remove_namespace None row_d with
      | (_, Raise e) => Raise e
      | (subrow_d, Ok _) =>
          parse_subrows row_d prefix rows_max_depth rest
            (records ++ [subrow_d])
      end
  end.

(** The loop over [row_nodes] (lines 141-169): each row starts from a copy
    of [meta_d]. *)
Fixpoint parse_rows (meta_d : dict) (subrow_tag : option string)
    (prefix : option string) (rows_max_depth : option Z)
    (row_nodes : list Element) (records : list dict) : result (list dict) :=
  match row_nodes with
  | [] => Ok records
  | r_node :: rest =>
      match _update_dict_from_node r_node prefix sep rows_max_depth
              strip_text remove_namespace subrow_tag meta_d with
      | (_, Raise e) => Raise e
      | (row_d, Ok _) =>
          match subrow_tag with
          | None =>
              parse_rows meta_d subrow_tag prefix rows_max_depth rest
                (records ++ [row_d])
          | Some t =>
              let subrows_path_ := _list_to_path [t] namespace in
              let subrow_nodes := findall r_node subrows_path_ in
              match parse_subrows row_d prefix rows_max_depth subrow_nodes
                      records with
              | Raise e => Raise e
              | Ok records' =>
                  parse_rows meta_d subrow_tag prefix rows_max_depth rest
                    records'
              end
          end
      end
  end.

(** [parse], from the parsed tree on: line 114, the call of the XML
    parser of the standard library, is the caller's. *)
Definition parse (tree : Element) (rows_path : list string)
    (subrow_tag : option string) (meta_paths : option (list (list string)))
    (rows_prefix meta_prefix : bool)
    (rows_max_depth meta_max_depth : option Z) : result (list dict) :=
  let meta_paths := match meta_paths with None => [] | Some l => l end in
  match parse_meta tree meta_prefix meta_max_depth meta_paths [] with
  | (_, Raise e) => Raise e
  | (meta_d, Ok _) =>
      let rows_path_ := _list_to_path rows_path namespace in
      let row_nodes := findall tree rows_path_ in
      let prefix :=
        if rows_prefix then _list_to_prefix rows_path sep else None in
      parse_rows meta_d subrow_tag prefix rows_max_depth row_nodes []
  end.

End Parse.

(** ** Record validator (source lines 177-184) *)

(** The loop of [validate] from index [i] on. *)
Fixpoint validate_from (i : nat) (records : list dict)
    (expected_keys : list string) : result unit :=
  match records with
  | [] => Ok tt
  | r :: rest =>
      if negb (bool_decide (keys r = expected_keys)) then
        Raise (XMLValidationError i (keys r) expected_keys)
      else validate_from (S i) rest expected_keys
  end.

Definition validate (records : list dict) (expected_keys : list string) : result unit :=
  validate_from 0 records expected_keys.

(** ** A model of [findall] for the examples *)

(** [s.endswith(suf)]. *)
Fixpoint ends_with (suf s : string) : bool :=
  bool_decide (s = suf)
  || match s with
     | EmptyString => false
     | String _ r => ends_with suf r
     end.

(** The steps of a path: the text between the [/] that stand outside a
    [{namespace}] part. *)
Fixpoint path_steps (in_ns : bool) (cur : string) (path : string) : list string :=
  match path with
  | EmptyString => [cur]
  | String c r =>
      if bool_decide (c = "/"%char) && negb in_ns then
        cur :: path_steps false "" r
      else
        let in_ns' :=
          if bool_decide (c = "{"%char) then true
          else if bool_decide (c = "}"%char) then false else in_ns in
        path_steps in_ns' (cur +:+ String c "") r
  end.

(** A step [{*}name] selects a tag [name] in any or no namespace, a step
    [{}name] the tag [name] in no namespace, any other step the tag equal
    to it. *)
Definition step_selects (step el_tag : string) : bool :=
  if String.prefix "{*}" step then
    bool_decide (el_tag = str_drop 3 step) || ends_with (str_drop 2 step) el_tag
  else if String.prefix "{}" step then bool_decide (el_tag = str_drop 2 step)
  else bool_decide (el_tag = step).

(** [Element.findall] of the standard library on the paths that
    [_list_to_path] builds from plain tag names: every step moves from the
    nodes selected so far to their children that the step selects, in
    document order. *)
Definition et_findall (node : Element) (path : string) : list Element :=
  foldl
    (fun nodes step =>
       flat_map (fun n => filter (fun c => step_selects step (tag c) = true) (children n)) nodes)
    [node] (path_steps false "" path).

(** * Evaluation on small inputs *)

Example process_tag_ns : _process_tag "{http://x}item" true = Ok "item".
Proof. reflexivity. Qed.

Example process_tag_raw : _process_tag "{http://x}item" false = Ok "{http://x}item".
Proof. reflexivity. Qed.

Example process_tag_bad : _process_tag "a}b{c" true = Raise (AssertionError "b{c").
Proof. reflexivity. Qed.

Example rpartition_last : rpartition "{u}v}local" "}" = ("{u}v", "}", "local").
Proof. reflexivity. Qed.

Example rpartition_none : rpartition "local" "}" = ("", "", "local").
Proof. reflexivity. Qed.

Example rpartition_end : rpartition "a}" "}" = ("a", "}", "").
Proof. reflexivity. Qed.

Example update_keeps_position :
  dict_update [("a", "1"); ("b", "2")] [("c", "3"); ("a", "4")]
  = [("a", "4"); ("b", "2"); ("c", "3")].
Proof. reflexivity. Qed.

Example strip_hello : py_strip "  hello
" = "hello".
Proof. reflexivity. Qed.

Example path_two : _list_to_path ["a"; "b"] "*" = "{*}a/{*}b".
Proof. reflexivity. Qed.

Example path_steps_ns :
  path_steps false "" "{http://x/y}a/{http://x/y}b" = ["{http://x/y}a"; "{http://x/y}b"].
Proof. reflexivity. Qed.

(** * Dictionaries *)

Lemma keys_app (d1 d2 : dict) : keys (d1 ++ d2) = keys d1 ++ keys d2.
Proof. unfold keys. apply fmap_app. Qed.

Lemma dict_setitem_new (d : dict) (k v : string) :
  k ∉ keys d -> dict_setitem d k v = d ++ [(k, v)].
Proof.
  induction d as [|[k' v'] r IH]; simpl; intros Hk; [done|].
  apply not_elem_of_cons in Hk as [Hne Hr].
  destruct (decide (k' = k)) as [->|_]; [done|].
  by rewrite IH.
Qed.

Lemma dict_setitem_keys_old (d : dict) (k v : string) :
  k ∈ keys d -> keys (dict_setitem d k v) = keys d.
Proof.
  induction d as [|[k' v'] r IH]; simpl; intros Hk.
  - by apply elem_of_nil in Hk.
  - destruct (decide (k' = k)) as [->|Hne]; [done|].
    simpl. f_equal. apply IH.
    apply elem_of_cons in Hk as [->|Hk]; done.
Qed.

Lemma dict_setitem_length_old (d : dict) (k v : string) :
  k ∈ keys d -> length (dict_setitem d k v) = length d.
Proof.
  intros Hk. apply (dict_setitem_keys_old d k v) in Hk.
  apply (f_equal length) in Hk. unfold keys in Hk.
  by rewrite !length_fmap in Hk.
Qed.

Lemma dict_get_setitem (d : dict) (k v k' : string) :
  dict_get (dict_setitem d k v) k' =
  if decide (k = k') then Some v else dict_get d k'.
Proof.
  induction d as [|[k0 v0] r IH]; simpl.
  - repeat case_decide; congruence.
  - destruct (decide (k0 = k)) as [->|Hne]; simpl.
    + repeat case_decide; congruence.
    + rewrite IH. repeat case_decide; congruence.
Qed.

Lemma dict_update_cons (d1 : dict) (kv : string * string) (d2 : dict) :
  dict_update d1 (kv :: d2) = dict_update (dict_setitem d1 kv.1 kv.2) d2.
Proof. done. Qed.

Lemma dict_update_length_le (d1 d2 : dict) :
  (length (dict_update d1 d2) <= length d1 + length d2)%nat.
Proof.
  revert d1. induction d2 as [|[k v] r IH]; intros d1.
  - simpl. lia.
  - rewrite dict_update_cons. simpl.
    specialize (IH (dict_setitem d1 k v)).
    destruct (decide (k ∈ keys d1)) as [Hin|Hout].
    + rewrite dict_setitem_length_old in IH by done. lia.
    + rewrite dict_setitem_new in IH |- * by done.
      rewrite length_app in IH. simpl in IH. lia.
Qed.

Lemma keys_disjoint_snoc (d1 : dict) (k v : string) (r : dict) :
  k ∉ keys d1 ->
  (NoDup (keys r) /\ keys_disjoint (d1 ++ [(k, v)]) r) <->
  (NoDup (keys ((k, v) :: r)) /\ keys_disjoint d1 ((k, v) :: r)).
Proof.
  intros Hk. unfold keys_disjoint. simpl. rewrite NoDup_cons.
  setoid_rewrite keys_app. simpl.
  setoid_rewrite elem_of_app. setoid_rewrite elem_of_cons.
  setoid_rewrite elem_of_nil.
  split.
  - intros [Hnd Hdis]. split; [split; [|done]|].
    + intros Hin. apply (Hdis k); auto.
    + intros k' H1 [->|H2]; [done|]. apply (Hdis k'); auto.
  - intros [[Hkr Hnd] Hdis]. split; [done|].
    intros k' [H1|[->|[]]] H2; [|done]. apply (Hdis k'); auto.
Qed.

(** The size test of the merger: the sizes add up exactly when the addition
    has no key of the target, and then the update is an append. *)
Lemma dict_update_length_iff (d1 d2 : dict) :
  length (dict_update d1 d2) = (length d1 + length d2)%nat <->
  NoDup (keys d2) /\ keys_disjoint d1 d2.
Proof.
  revert d1. induction d2 as [|[k v] r IH]; intros d1.
  - simpl. split; [|lia]. intros _. split; [constructor|].
    intros k _ Hk. by apply elem_of_nil in Hk.
  - rewrite dict_update_cons. simpl fst. simpl snd.
    destruct (decide (k ∈ keys d1)) as [Hin|Hout].
    + split.
      * intros Hlen. pose proof (dict_update_length_le (dict_setitem d1 k v) r) as Hle.
        rewrite dict_setitem_length_old in Hle by done. simpl in Hlen. lia.
      * intros [_ Hdis]. exfalso. apply (Hdis k); [done|]. simpl. left.
    + rewrite dict_setitem_new by done.
      rewrite <- keys_disjoint_snoc by done. rewrite <- IH.
      rewrite length_app. simpl. split; lia.
Qed.

Lemma dict_update_disjoint (d1 d2 : dict) :
  NoDup (keys d2) -> keys_disjoint d1 d2 -> dict_update d1 d2 = d1 ++ d2.
Proof.
  revert d1. induction d2 as [|[k v] r IH]; intros d1 Hnd Hdis.
  - simpl. by rewrite app_nil_r.
  - rewrite dict_update_cons. simpl fst. simpl snd.
    assert (k ∉ keys d1) as Hout.
    { intros Hin. apply (Hdis k); [done|]. simpl. left. }
    rewrite dict_setitem_new by done.
    destruct (proj2 (keys_disjoint_snoc d1 k v r Hout) (conj Hnd Hdis))
      as [Hnd' Hdis'].
    rewrite IH by done. by rewrite <- app_assoc.
Qed.

Lemma dict_get_update_other (d1 d2 : dict) (k : string) :
  k ∉ keys d2 -> dict_get (dict_update d1 d2) k = dict_get d1 k.
Proof.
  revert d1. induction d2 as [|[k0 v0] r IH]; intros d1 Hk; [done|].
  simpl in Hk. apply not_elem_of_cons in Hk as [Hne Hr].
  rewrite dict_update_cons, IH by done. simpl.
  rewrite dict_get_setitem. by case_decide.
Qed.

Lemma dict_get_update_item (d1 d2 : dict) (k v : string) :
  NoDup (keys d2) -> (k, v) ∈ d2 -> dict_get (dict_update d1 d2) k = Some v.
Proof.
  revert d1. induction d2 as [|[k0 v0] r IH]; intros d1 Hnd Hin.
  - by apply elem_of_nil in Hin.
  - simpl in Hnd. apply NoDup_cons in Hnd as [Hk0 Hnd].
    rewrite dict_update_cons. simpl.
    apply elem_of_cons in Hin as [Heq|Hin].
    + injection Heq as -> ->.
      rewrite dict_get_update_other by done.
      rewrite dict_get_setitem. by case_decide.
    + by apply IH.
Qed.

Lemma dict_setitem_key_set (d : dict) (k v : string) :
  list_to_set (keys (dict_setitem d k v)) =@{gset string}
  list_to_set (keys d) ∪ {[k]}.
Proof.
  induction d as [|[k' v'] r IH]; simpl.
  - set_solver.
  - destruct (decide (k' = k)) as [->|Hne]; simpl.
    + set_solver.
    + rewrite IH. set_solver.
Qed.

Lemma dict_update_key_set (d1 d2 : dict) :
  list_to_set (keys (dict_update d1 d2)) =@{gset string}
  list_to_set (keys d1) ∪ list_to_set (keys d2).
Proof.
  revert d1. induction d2 as [|[k v] r IH]; intros d1.
  - simpl. set_solver.
  - rewrite dict_update_cons, IH, dict_setitem_key_set. simpl. set_solver.
Qed.

(** Two key lists are disjoint or share a key. *)
Lemma keys_disjoint_or_shared (d1 d2 : dict) :
  keys_disjoint d1 d2 \/ exists k, k ∈ keys d1 /\ k ∈ keys d2.
Proof.
  destruct (decide (Exists (fun k => k ∈ keys d2) (keys d1))) as [Hex|Hno].
  - right. apply Exists_exists in Hex. done.
  - left. intros k H1 H2. apply Hno, Exists_exists. eauto.
Qed.

(** * The collision-safe merger *)

Lemma len_add_eq (d d1 d2 : dict) :
  (len d =? len d1 + len d2) = true <->
  length d = (length d1 + length d2)%nat.
Proof. unfold len. rewrite Z.eqb_eq. lia. Qed.

(** The merger succeeds exactly when the addition is a collision-free
    extension, and then it appends the addition. *)
Lemma nocollision_ok (d1 d2 d' : dict) :
  _update_dict_nocollision d2 d1 = (d', Ok tt) <->
  NoDup (keys d2) /\ keys_disjoint d1 d2 /\ d' = d1 ++ d2.
Proof.
  unfold _update_dict_nocollision.
  destruct (len (dict_update d1 d2) =? len d1 + len d2) eqn:Hlen; simpl.
  - apply len_add_eq, dict_update_length_iff in Hlen as [Hnd Hdis].
    rewrite dict_update_disjoint by done. split.
    + intros [= <-]. done.
    + intros (_ & _ & ->). done.
  - split; [done|]. intros (Hnd & Hdis & _).
    assert ((len (dict_update d1 d2) =? len d1 + len d2) = true) as Ht.
    { apply len_add_eq, dict_update_length_iff. done. }
    congruence.
Qed.

(** When the merger raises, the target has gone through the whole update
    and the exception carries every key of the addition. *)
Lemma nocollision_raise (d1 d2 : dict) :
  ~ (NoDup (keys d2) /\ keys_disjoint d1 d2) ->
  _update_dict_nocollision d2 d1 =
  (dict_update d1 d2, Raise (XMLParsingError (list_to_set (keys d2)))).
Proof.
  intros Hno. unfold _update_dict_nocollision.
  destruct (len (dict_update d1 d2) =? len d1 + len d2) eqn:Hlen; simpl.
  - apply len_add_eq, dict_update_length_iff in Hlen. done.
  - do 3 f_equal. rewrite dict_update_key_set. set_solver.
Qed.

(** C1. With [target] and [addition] dicts (their keys unique), the merge
    raises the key-collision error if and only if some key occurs in both,
    which is the case if and only if the size after the update is not
    [len(target) + len(addition)]; when no key is shared the merge succeeds
    and leaves [target] extended with all entries of [addition]. *)
Theorem C1_merge_raises_iff_shared_key (target addition : dict) :
  NoDup (keys target) -> NoDup (keys addition) ->
  ((exists ks target',
      _update_dict_nocollision addition target =
      (target', Raise (XMLParsingError ks)))
   <-> (exists k, k ∈ keys target /\ k ∈ keys addition))
  /\ ((exists k, k ∈ keys target /\ k ∈ keys addition)
      <-> len (dict_update target addition) <> len target + len addition)
  /\ (keys_disjoint target addition ->
      _update_dict_nocollision addition target = (target ++ addition, Ok tt)).
Proof.
  intros _ Hnd.
  assert ((exists k, k ∈ keys target /\ k ∈ keys addition)
          <-> ~ keys_disjoint target addition) as Hshared.
  { split.
    - intros (k & H1 & H2) Hdis. exact (Hdis k H1 H2).
    - intros Hno. destruct (keys_disjoint_or_shared target addition); done. }
  split; [|split].
  - rewrite Hshared. split.
    + intros (ks & t' & Hrun) Hdis.
      assert (_update_dict_nocollision addition target
              = (target ++ addition, Ok tt)) as Hok
        by (apply nocollision_ok; done).
      congruence.
    + intros Hno. eexists _, _. apply nocollision_raise. tauto.
  - rewrite Hshared. unfold len.
    pose proof (dict_update_length_iff target addition) as Hiff.
    split.
    + intros Hno Hlen. apply Hno. apply Hiff. lia.
    + intros Hlen Hdis. apply Hlen.
      destruct Hiff as [_ Hiff]. rewrite Hiff by done. lia.
  - intros Hdis. apply nocollision_ok. done.
Qed.

Lemma C1_merge_raises_iff_shared_key_witness :
  _update_dict_nocollision [("b", "2")] [("a", "1")]
  = ([("a", "1"); ("b", "2")], Ok tt).
Proof.
  apply (C1_merge_raises_iff_shared_key [("a", "1")] [("b", "2")]).
  - apply NoDup_singleton.
  - apply NoDup_singleton.
  - intros k H1 H2. simpl in H1, H2.
    apply list_elem_of_singleton in H1, H2. congruence.
Defined.

(** C2. On the target [{"a": "1"}] and the addition [{"a": "2", "b": "3"}]
    the only key present in both before the merge is ["a"], but the
    key-collision error carries ["a"] and ["b"]: the common keys are taken
    after the update, when the target already holds every key of the
    addition. *)
Theorem C2_error_carries_every_addition_key :
  let target := [("a", "1")] in
  let addition := [("a", "2"); ("b", "3")] in
  _update_dict_nocollision addition target
  = ([("a", "2"); ("b", "3")], Raise (XMLParsingError {["a"; "b"]}))
  /\ ("b" ∉ keys target)
  /\ (({["a"; "b"]} : gset string) <> ({["a"]} : gset string)).
Proof.
  simpl. split; [|split].
  - rewrite nocollision_raise.
    + reflexivity.
    + intros [_ Hdis]. apply (Hdis "a"); simpl; left.
  - simpl. intros H. apply list_elem_of_singleton in H. discriminate.
  - intros Heq.
    assert ("b" ∈ ({["a"]} : gset string)) as Hb by (rewrite <- Heq; set_solver).
    apply elem_of_singleton in Hb. discriminate.
Qed.

(** C10. The merge is not atomic: when [target] and [addition] share a key,
    the key-collision error is raised with [target] already updated by the
    whole of [addition]: every entry of [addition] is in it, a colliding key
    holding the value of [addition], no key of [target] is lost, and the
    entries of [target] under the other keys are untouched. *)
Theorem C10_merge_not_atomic (target addition : dict) :
  NoDup (keys addition) ->
  (exists k, k ∈ keys target /\ k ∈ keys addition) ->
  exists ks target',
    _update_dict_nocollision addition target
    = (target', Raise (XMLParsingError ks))
    /\ target' = dict_update target addition
    /\ (forall k v, (k, v) ∈ addition -> dict_get target' k = Some v)
    /\ (forall k, k ∉ keys addition -> dict_get target' k = dict_get target k)
    /\ (forall k, k ∈ keys target -> k ∈ keys target').
Proof.
  intros Hnd (k0 & H1 & H2).
  eexists _, _. split; [|split; [reflexivity|split; [|split]]].
  - apply nocollision_raise. intros [_ Hdis]. exact (Hdis k0 H1 H2).
  - intros k v Hin. by apply dict_get_update_item.
  - intros k Hk. by apply dict_get_update_other.
  - intros k Hk.
    assert (k ∈ (list_to_set (keys (dict_update target addition)) : gset string))
      as Hin by (rewrite dict_update_key_set; set_solver).
    by apply elem_of_list_to_set in Hin.
Qed.

Lemma C10_merge_not_atomic_witness :
  exists ks target',
    _update_dict_nocollision [("a", "2"); ("b", "3")] [("a", "1")]
    = (target', Raise (XMLParsingError ks))
    /\ target' = dict_update [("a", "1")] [("a", "2"); ("b", "3")]
    /\ (forall k v, (k, v) ∈ [("a", "2"); ("b", "3")] ->
        dict_get target' k = Some v)
    /\ (forall k, k ∉ keys [("a", "2"); ("b", "3")] ->
        dict_get target' k = dict_get [("a", "1")] k)
    /\ (forall k, k ∈ keys [("a", "1")] -> k ∈ keys target').
Proof.
  apply (C10_merge_not_atomic [("a", "1")] [("a", "2"); ("b", "3")]).
  - simpl. apply NoDup_cons. split; [|apply NoDup_singleton].
    intros H. apply list_elem_of_singleton in H. discriminate.
  - exists "a". simpl. split; left.
Defined.

(** * The record validator *)

Lemma validate_from_all (i : nat) (records : list dict) (expected_keys : list string) :
  validate_from i records expected_keys = Ok tt <->
  Forall (fun r => keys r = expected_keys) records.
Proof.
  revert i. induction records as [|r rest IH]; intros i; simpl.
  - split; [constructor|done].
  - rewrite Forall_cons. destruct (decide (keys r = expected_keys)) as [Heq|Hne].
    + rewrite bool_decide_true by done. simpl. rewrite IH. tauto.
    + rewrite bool_decide_false by done. simpl. split; [done|tauto].
Qed.

Lemma validate_from_first (i : nat) (pre : list dict) (r : dict)
    (post : list dict) (expected_keys : list string) :
  Forall (fun r' => keys r' = expected_keys) pre ->
  keys r <> expected_keys ->
  validate_from i (pre ++ r :: post) expected_keys
  = Raise (XMLValidationError (i + length pre) (keys r) expected_keys).
Proof.
  revert i. induction pre as [|p pre IH]; intros i Hpre Hr; simpl.
  - rewrite bool_decide_false by done. simpl. do 2 f_equal. lia.
  - apply Forall_cons in Hpre as [Hp Hpre].
    rewrite bool_decide_true by done. simpl.
    rewrite IH by done. do 2 f_equal. lia.
Qed.

(** Every list of records is all matching, or splits at its first
    mismatching record. *)
Lemma first_mismatch (records : list dict) (expected_keys : list string) :
  Forall (fun r => keys r = expected_keys) records
  \/ exists pre r post,
       records = pre ++ r :: post
       /\ Forall (fun r' => keys r' = expected_keys) pre
       /\ keys r <> expected_keys.
Proof.
  induction records as [|r rest IH].
  - left. constructor.
  - destruct (decide (keys r = expected_keys)) as [Heq|Hne].
    + destruct IH as [Hall|(pre & r' & post & -> & Hpre & Hr')].
      * left. by constructor.
      * right. exists (r :: pre), r', post. split; [done|].
        split; [by constructor|done].
    + right. exists [], r, rest. split; [done|]. split; [constructor|done].
Qed.

(** C9. [validate] succeeds if and only if the key sequence of every record
    equals [expected_keys]; otherwise the records split at the first record
    whose key sequence differs, and [validate] raises the validation error
    with the index of that record, its key sequence and [expected_keys],
    whatever records follow it. *)
Theorem C9_validate_first_mismatch (records : list dict) (expected_keys : list string) :
  (validate records expected_keys = Ok tt
   <-> Forall (fun r => keys r = expected_keys) records)
  /\ (validate records expected_keys <> Ok tt ->
      exists pre r post,
        records = pre ++ r :: post
        /\ Forall (fun r' => keys r' = expected_keys) pre
        /\ keys r <> expected_keys
        /\ forall later,
             validate (pre ++ r :: later) expected_keys
             = Raise (XMLValidationError (length pre) (keys r) expected_keys)).
Proof.
  unfold validate. split; [apply validate_from_all|].
  intros Hfail.
  destruct (first_mismatch records expected_keys)
    as [Hall|(pre & r & post & -> & Hpre & Hr)].
  - by apply (validate_from_all 0) in Hall.
  - exists pre, r, post. repeat split; try done.
    intros later. by rewrite validate_from_first.
Qed.

Lemma C9_validate_first_mismatch_witness :
  exists pre r post,
    [[("a", "1")]; [("b", "2")]; [("c", "3")]] = pre ++ r :: post
    /\ Forall (fun r' => keys r' = ["a"]) pre
    /\ keys r <> ["a"]
    /\ forall later,
         validate (pre ++ r :: later) ["a"]
         = Raise (XMLValidationError (length pre) (keys r) ["a"]).
Proof.
  apply (C9_validate_first_mismatch
           [[("a", "1")]; [("b", "2")]; [("c", "3")]] ["a"]).
  vm_compute. discriminate.
Defined.

(** * Tags *)

Lemma str_append_assoc (s1 s2 s3 : string) :
  (s1 +:+ s2) +:+ s3 = s1 +:+ s2 +:+ s3.
Proof.
  induction s1 as [|a r IH]; [done|].
  change (String a ((r +:+ s2) +:+ s3) = String a (r +:+ s2 +:+ s3)).
  by rewrite IH.
Qed.

Lemma prefix_char (c a : ascii) (r : string) :
  String.prefix (String c "") (String a r) = bool_decide (c = a).
Proof.
  simpl. destruct (ascii_dec c a) as [->|Hne].
  - rewrite bool_decide_true by done. by destruct r.
  - by rewrite bool_decide_false.
Qed.

Lemma str_in_char_nil (c : ascii) : str_in (String c "") "" = false.
Proof. done. Qed.

Lemma str_in_char_cons (c a : ascii) (r : string) :
  str_in (String c "") (String a r)
  = bool_decide (c = a) || str_in (String c "") r.
Proof.
  change (str_in (String c "") (String a r))
    with (String.prefix (String c "") (String a r) || str_in (String c "") r).
  by rewrite prefix_char.
Qed.

Lemma str_in_char_app (c : ascii) (s1 s2 : string) :
  str_in (String c "") (s1 +:+ s2)
  = str_in (String c "") s1 || str_in (String c "") s2.
Proof.
  induction s1 as [|a r IH]; [done|].
  change (String a r +:+ s2) with (String a (r +:+ s2)).
  rewrite !str_in_char_cons, IH. by rewrite orb_assoc.
Qed.

(** A string without the separator is not split. *)
Lemma rpartition_absent (c : ascii) (s : string) :
  str_in (String c "") s = false -> rpartition s (String c "") = ("", "", s).
Proof.
  induction s as [|a r IH]; [done|].
  rewrite str_in_char_cons. intros Hno. apply orb_false_iff in Hno as [Ha Hr].
  change (rpartition (String a r) (String c ""))
    with (match rpartition r (String c "") with
          | (h, EmptyString, _) =>
              if String.prefix (String c "") (String a r)
              then ("", String c "", str_drop 1 (String a r))
              else ("", "", String a r)
          | (h, m, t) => (String a h, m, t)
          end).
  rewrite IH by done. by rewrite prefix_char, Ha.
Qed.

(** The split is at the last separator: nothing after it holds one. *)
Lemma rpartition_last_char (c : ascii) (h t : string) :
  str_in (String c "") t = false ->
  rpartition (h +:+ String c t) (String c "") = (h, String c "", t).
Proof.
  intros Hno. induction h as [|a r IH].
  - change ("" +:+ String c t) with (String c t).
    change (rpartition (String c t) (String c ""))
      with (match rpartition t (String c "") with
            | (h, EmptyString, _) =>
                if String.prefix (String c "") (String c t)
                then ("", String c "", str_drop 1 (String c t))
                else ("", "", String c t)
            | (h, m, t') => (String c h, m, t')
            end).
    rewrite rpartition_absent by done.
    by rewrite prefix_char, bool_decide_true.
  - change (String a r +:+ String c t) with (String a (r +:+ String c t)).
    change (rpartition (String a (r +:+ String c t)) (String c ""))
      with (match rpartition (r +:+ String c t) (String c "") with
            | (h, EmptyString, _) =>
                if String.prefix (String c "") (String a (r +:+ String c t))
                then ("", String c "", str_drop 1 (String a (r +:+ String c t)))
                else ("", "", String a (r +:+ String c t))
            | (h, m, t') => (String a h, m, t')
            end).
    by rewrite IH.
Qed.

(** Every string is without the separator or splits at its last one. *)
Lemma last_char_split (c : ascii) (s : string) :
  str_in (String c "") s = false
  \/ exists h t, s = h +:+ String c t /\ str_in (String c "") t = false.
Proof.
  induction s as [|a r IH]; [by left|].
  destruct IH as [Hno|(h & t & -> & Hno)].
  - destruct (decide (c = a)) as [<-|Hne].
    + right. exists "", r. done.
    + left. rewrite str_in_char_cons, Hno. by rewrite bool_decide_false.
  - right. exists (String a h), t. done.
Qed.

(** What [rpartition] gives for a one-character separator. *)
Lemma rpartition_char (c : ascii) (s : string) :
  exists h m t,
    rpartition s (String c "") = (h, m, t)
    /\ s = h +:+ m +:+ t
    /\ str_in (String c "") t = false
    /\ (m = String c "" \/ (m = "" /\ h = "")).
Proof.
  destruct (last_char_split c s) as [Hno|(h & t & -> & Hno)].
  - exists "", "", s. rewrite rpartition_absent by done.
    repeat split; [done|]. by right.
  - exists h, (String c ""), t. rewrite rpartition_last_char by done.
    repeat split; [done|]. by left.
Qed.

(** The tag without its namespace: for a tag that is [local], or anything,
    a closing brace and [local], where [local] holds no closing brace,
    [_process_tag] with the removal returns [local], unless [local] holds an
    opening brace, which it reports. *)
Lemma process_tag_after_last_brace (node_tag local : string) :
  (node_tag = local \/ exists ns, node_tag = ns +:+ "}" +:+ local) ->
  str_in "}" local = false ->
  _process_tag node_tag true
  = if str_in "{" local then Raise (AssertionError local) else Ok local.
Proof.
  intros Hsplit Hno. unfold _process_tag.
  destruct Hsplit as [->|(ns & ->)].
  - rewrite (rpartition_absent "}" local) by done.
    by rewrite Hno, orb_false_r.
  - change (ns +:+ "}" +:+ local) with (ns +:+ String "}" local).
    rewrite (rpartition_last_char "}" ns local) by done.
    by rewrite Hno, orb_false_r.
Qed.

(** Every tag has such a part after its last closing brace. *)
Lemma after_last_brace_exists (node_tag : string) :
  exists local,
    (node_tag = local \/ exists ns, node_tag = ns +:+ "}" +:+ local)
    /\ str_in "}" local = false.
Proof.
  destruct (last_char_split "}" node_tag) as [Hno|(h & t & -> & Hno)].
  - exists node_tag. split; [by left|done].
  - exists t. split; [right; by exists h|done].
Qed.

(** * The node flattener *)

Lemma Element_ind (P : Element -> Prop) :
  (forall node_tag node_text node_attrib node_children,
     Forall P node_children ->
     P (mkElement node_tag node_text node_attrib node_children)) ->
  forall node, P node.
Proof.
  intros Hnode. fix IH 1. intros [t x a cs]. apply Hnode.
  induction cs as [|c cs IHcs]; constructor; [apply IH|exact IHcs].
Qed.

Lemma bind_ret_l {A B} (a : A) (f : A -> M B) (d : dict) :
  bind (ret a) f d = f a d.
Proof. done. Qed.

Lemma bind_assoc {A B C} (m : M A) (f : A -> M B) (g : B -> M C) (d : dict) :
  bind (bind m f) g d = bind m (fun a => bind (f a) g) d.
Proof. unfold bind. destruct (m d) as [d' [a|e]]; done. Qed.

Lemma bind_ext {A B} (m : M A) (f g : A -> M B) (d : dict) :
  (forall a d', f a d' = g a d') -> bind m f d = bind m g d.
Proof. intros Hfg. unfold bind. destruct (m d) as [d' [a|e]]; auto. Qed.

(** The function is its three blocks in sequence. *)
Lemma update_dict_from_node_blocks node_tag node_text node_attrib node_children
    prefix sep max_depth strip rm_namespace skip_child_tag (d : dict) :
  _update_dict_from_node
    (mkElement node_tag node_text node_attrib node_children)
    prefix sep max_depth strip rm_namespace skip_child_tag d
  = (let* _ := text_block node_tag node_text prefix strip rm_namespace in
     let* _ := attrib_block node_attrib prefix sep in
     if descends max_depth node_children then
       children_block prefix sep (decrement max_depth) strip rm_namespace
         skip_child_tag node_children
     else ret tt) d.
Proof.
  simpl. fold (text_block node_tag node_text prefix strip rm_namespace).
  fold (attrib_block node_attrib prefix sep).
  fold (descends max_depth node_children). fold (decrement max_depth).
  apply bind_ext. intros _ d1. apply bind_ext. intros _ d2.
  destruct (descends _ _); [|done].
  revert d2. clear.
  induction node_children as [|c cs IH]; intros d; [done|].
  simpl. unfold child_block. rewrite bind_assoc.
  apply bind_ext. intros ctag d1. apply bind_ext. intros _ d2. apply IH.
Qed.

(** From here on the function is used through its blocks. *)
Arguments _update_dict_from_node : simpl never.

(** ** Successful flattening appends a collision-free block *)

(** A computation is [framed] when each of its successful runs appends a
    block of entries with fresh, pairwise distinct keys, and appends the
    same block to every dict that has none of these keys. *)
Definition framed (m : M unit) : Prop :=
  forall d d', m d = (d', Ok tt) ->
    exists f, d' = d ++ f /\ NoDup (keys f) /\ keys_disjoint d f
              /\ forall d0, keys_disjoint d0 f -> m d0 = (d0 ++ f, Ok tt).

Lemma keys_disjoint_nil_r (d : dict) : keys_disjoint d [].
Proof. intros k _ Hk. by apply elem_of_nil in Hk. Qed.

Lemma keys_disjoint_nil_l (d : dict) : keys_disjoint [] d.
Proof. intros k Hk _. by apply elem_of_nil in Hk. Qed.

Lemma keys_disjoint_app_l (d1 d2 f : dict) :
  keys_disjoint (d1 ++ d2) f <-> keys_disjoint d1 f /\ keys_disjoint d2 f.
Proof.
  unfold keys_disjoint. setoid_rewrite keys_app. setoid_rewrite elem_of_app.
  naive_solver.
Qed.

Lemma keys_disjoint_app_r (d f1 f2 : dict) :
  keys_disjoint d (f1 ++ f2) <-> keys_disjoint d f1 /\ keys_disjoint d f2.
Proof.
  unfold keys_disjoint. setoid_rewrite keys_app. setoid_rewrite elem_of_app.
  naive_solver.
Qed.

Lemma NoDup_keys_app (f1 f2 : dict) :
  NoDup (keys (f1 ++ f2)) <->
  NoDup (keys f1) /\ keys_disjoint f1 f2 /\ NoDup (keys f2).
Proof. rewrite keys_app. apply NoDup_app. Qed.

Lemma framed_ext (m m' : M unit) :
  (forall d, m d = m' d) -> framed m' -> framed m.
Proof.
  intros Heq Hm d d' Hrun. rewrite Heq in Hrun.
  destruct (Hm d d' Hrun) as (f & -> & Hnd & Hdis & Hany).
  exists f. repeat split; try done. intros d0 Hd0. rewrite Heq. auto.
Qed.

Lemma framed_ret : framed (ret tt).
Proof.
  intros d d' [= <-]. exists []. rewrite app_nil_r.
  repeat split; [constructor|apply keys_disjoint_nil_r|].
  intros d0 _. by rewrite app_nil_r.
Qed.

Lemma framed_nocollision (d2 : dict) : framed (_update_dict_nocollision d2).
Proof.
  intros d d' Hrun. apply nocollision_ok in Hrun as (Hnd & Hdis & ->).
  exists d2. repeat split; try done.
  intros d0 Hd0. by apply nocollision_ok.
Qed.

Lemma framed_bind (m k : M unit) :
  framed m -> framed k -> framed (let* _ := m in k).
Proof.
  intros Hm Hk d d' Hrun. unfold bind in Hrun.
  destruct (m d) as [d1 [[]|e]] eqn:Hmd; [|done].
  destruct (Hm d d1 Hmd) as (f1 & -> & Hnd1 & Hdis1 & Hany1).
  destruct (Hk _ _ Hrun) as (f2 & -> & Hnd2 & Hdis2 & Hany2).
  apply keys_disjoint_app_l in Hdis2 as [Hd2 H12].
  exists (f1 ++ f2). rewrite app_assoc. repeat split.
  - by apply NoDup_keys_app.
  - by apply keys_disjoint_app_r.
  - intros d0 Hd0. apply keys_disjoint_app_r in Hd0 as [H01 H02].
    unfold bind. rewrite (Hany1 d0 H01).
    rewrite Hany2; [by rewrite app_assoc|].
    by apply keys_disjoint_app_l.
Qed.

Lemma framed_lift_bind {A} (r : result A) (k : A -> M unit) :
  (forall a, framed (k a)) -> framed (let* a := lift r in k a).
Proof.
  intros Hk d d' Hrun. unfold bind, lift in Hrun.
  destruct r as [a|e]; [|done].
  destruct (Hk a d d' Hrun) as (f & -> & Hnd & Hdis & Hany).
  exists f. do 3 (split; [done|]).
  intros d0 Hd0. unfold bind, lift. auto.
Qed.

Lemma framed_text_block node_tag node_text prefix strip rm_namespace :
  framed (text_block node_tag node_text prefix strip rm_namespace).
Proof.
  unfold text_block. destruct node_text as [t|]; [|apply framed_ret].
  destruct (_ >? _); [|apply framed_ret].
  apply framed_lift_bind. intros k. apply framed_nocollision.
Qed.

Lemma framed_attrib_block node_attrib prefix sep :
  framed (attrib_block node_attrib prefix sep).
Proof.
  unfold attrib_block.
  destruct (_ >? _); [apply framed_nocollision|apply framed_ret].
Qed.

Lemma framed_children_block prefix sep max_depth strip rm_namespace
    skip_child_tag (cs : list Element) :
  Forall (fun c => forall prefix' max_depth' skip',
            framed (_update_dict_from_node c prefix' sep max_depth' strip
                      rm_namespace skip')) cs ->
  framed (children_block prefix sep max_depth strip rm_namespace
            skip_child_tag cs).
Proof.
  induction 1 as [|c cs Hc _ IH]; simpl; [apply framed_ret|].
  apply framed_bind; [|exact IH].
  unfold child_block. apply framed_lift_bind. intros ctag.
  destruct (match skip_child_tag with Some _ => _ | None => _ end);
    [apply Hc|apply framed_ret].
Qed.

Lemma framed_update_dict_from_node node sep strip rm_namespace :
  forall prefix max_depth skip_child_tag,
    framed (_update_dict_from_node node prefix sep max_depth strip
              rm_namespace skip_child_tag).
Proof.
  induction node as [node_tag node_text node_attrib node_children IH]
    using Element_ind.
  intros prefix max_depth skip_child_tag.
  eapply framed_ext; [intros d; apply update_dict_from_node_blocks|].
  apply framed_bind; [apply framed_text_block|].
  apply framed_bind; [apply framed_attrib_block|].
  destruct (descends _ _); [|apply framed_ret].
  apply framed_children_block.
  eapply Forall_impl; [exact IH|]. simpl. auto.
Qed.

(** Flattening into a dict succeeds exactly when the flat record of the
    node exists and shares no key with the dict, and then it appends that
    record. *)
Lemma update_dict_from_node_flatten node prefix sep max_depth strip
    rm_namespace skip_child_tag (d d' : dict) :
  _update_dict_from_node node prefix sep max_depth strip rm_namespace
    skip_child_tag d = (d', Ok tt)
  <-> exists f,
        flatten node prefix sep max_depth strip rm_namespace skip_child_tag
        = Ok f
        /\ NoDup (keys f) /\ keys_disjoint d f /\ d' = d ++ f.
Proof.
  pose proof (framed_update_dict_from_node node sep strip rm_namespace
                prefix max_depth skip_child_tag) as Hfr.
  unfold flatten. split.
  - intros Hrun. destruct (Hfr d d' Hrun) as (f & -> & Hnd & Hdis & Hany).
    exists f. rewrite (Hany [] (keys_disjoint_nil_l f)). done.
  - intros (f & Hfl & _ & Hdis & ->).
    destruct (_update_dict_from_node _ _ _ _ _ _ _ []) as [f0 [[]|e]] eqn:Hrun;
      [|done].
    injection Hfl as ->.
    destruct (Hfr [] f Hrun) as (f' & Heq & _ & _ & Hany).
    simpl in Heq. subst f'. auto.
Qed.

(** ** Depth, skipped children, text and attributes *)

Lemma children_block_kept prefix sep max_depth strip rm_namespace s
    (cs : list Element) (d : dict) :
  children_block prefix sep max_depth strip rm_namespace (Some s) cs d
  = children_block prefix sep max_depth strip rm_namespace None
      (kept_children rm_namespace s cs) d.
Proof.
  revert d. induction cs as [|c cs IH]; intros d; [done|].
  unfold kept_children. simpl.
  destruct (skipped rm_namespace s c) eqn:Hsk.
  - rewrite filter_cons_False by (rewrite Hsk; done).
    fold (kept_children rm_namespace s cs). rewrite <- IH.
    unfold skipped in Hsk. unfold child_block, bind, lift.
    destruct (_process_tag (tag c) rm_namespace) as [ctag|e]; [|done].
    by rewrite Hsk.
  - rewrite filter_cons_True by done.
    fold (kept_children rm_namespace s cs). simpl.
    unfold skipped in Hsk. unfold child_block, bind, lift.
    destruct (_process_tag (tag c) rm_namespace) as [ctag|e]; [|done].
    rewrite Hsk. simpl.
    destruct (_update_dict_from_node _ _ _ _ _ _ _ _) as [d1 [[]|e]];
      [apply IH|done].
Qed.

Lemma descends_nil max_depth : descends max_depth [] = false.
Proof. unfold descends. by destruct max_depth as [n|]; [destruct (n >? 0)|]. Qed.

Lemma descends_depth_0 n (cs : list Element) :
  n <= 0 -> descends (Some n) cs = false.
Proof.
  intros Hn. unfold descends.
  destruct (n >? 0) eqn:Hgt; [|done]. apply Z.gtb_lt in Hgt. lia.
Qed.

(** A node that is not descended into is flattened like the node without
    its children, whatever the depth limit and the skipped tag there. *)
Lemma no_descent_childless node prefix sep max_depth strip rm_namespace
    skip_child_tag max_depth' skip_child_tag' (d : dict) :
  descends max_depth (children node) = false ->
  _update_dict_from_node node prefix sep max_depth strip rm_namespace
    skip_child_tag d
  = _update_dict_from_node (childless node) prefix sep max_depth' strip
      rm_namespace skip_child_tag' d.
Proof.
  destruct node as [node_tag node_text node_attrib node_children].
  unfold childless. simpl. intros Hdesc.
  rewrite !update_dict_from_node_blocks.
  apply bind_ext. intros _ d1. apply bind_ext. intros _ d2.
  by rewrite Hdesc, descends_nil.
Qed.

(** What the skipped tag does.  Flattening with [skip_child_tag] set to [s]
    is flattening, with no skipped tag, the node whose immediate children
    are filtered: a child is left out exactly when [_process_tag] of its tag
    (the tag without its namespace when [rm_namespace] is set, the tag as it
    is otherwise) equals [s].  The children that stay are flattened with
    [skip_child_tag] absent, so nothing below the immediate children is
    filtered. *)
Lemma skip_filters_immediate_children node_tag node_text node_attrib
    node_children prefix sep max_depth strip rm_namespace s (d : dict) :
  _update_dict_from_node
    (mkElement node_tag node_text node_attrib node_children)
    prefix sep max_depth strip rm_namespace (Some s) d
  = _update_dict_from_node
      (mkElement node_tag node_text node_attrib
         (kept_children rm_namespace s node_children))
      prefix sep max_depth strip rm_namespace None d
  /\ (forall child,
        child ∈ kept_children rm_namespace s node_children
        <-> child ∈ node_children
            /\ _process_tag (tag child) rm_namespace <> Ok s)
  /\ (forall child ctag d1,
        _process_tag (tag child) rm_namespace = Ok ctag -> ctag <> s ->
        child_block prefix sep max_depth strip rm_namespace (Some s) child d1
        = _update_dict_from_node child
            (match prefix with
             | None => None
             | Some p => Some (p +:+ sep +:+ ctag)
             end) sep max_depth strip rm_namespace None d1).
Proof.
  split; [|split].
  - rewrite !update_dict_from_node_blocks.
    apply bind_ext. intros _ d1. apply bind_ext. intros _ d2.
    destruct (descends max_depth node_children) eqn:Hdesc.
    + rewrite children_block_kept.
      destruct (descends max_depth (kept_children rm_namespace s node_children))
        eqn:Hkept; [done|].
      unfold descends in Hdesc, Hkept.
      apply andb_true_iff in Hdesc as [Hdepth _]. rewrite Hdepth in Hkept.
      simpl in Hkept.
      destruct (kept_children rm_namespace s node_children); [done|].
      simpl in Hkept. rewrite Z.gtb_ltb in Hkept. apply Z.ltb_ge in Hkept. lia.
    + destruct (descends max_depth (kept_children rm_namespace s node_children))
        eqn:Hkept; [|done].
      unfold descends in Hdesc, Hkept.
      apply andb_true_iff in Hkept as [Hdepth Hlen]. rewrite Hdepth in Hdesc.
      simpl in Hdesc.
      destruct node_children; [done|].
      simpl in Hdesc. rewrite Z.gtb_ltb in Hdesc. apply Z.ltb_ge in Hdesc. lia.
  - intros child. unfold kept_children. rewrite list_elem_of_filter.
    unfold skipped.
    destruct (_process_tag (tag child) rm_namespace) as [ctag|e].
    + rewrite bool_decide_eq_false. split.
      * intros [Hne Hin]. split; [done|]. congruence.
      * intros [Hin Hne]. split; [|done]. congruence.
    + split; intros [? ?]; done.
  - intros child ctag d1 Htag Hne. unfold child_block, bind, lift.
    rewrite Htag. by rewrite bool_decide_false.
Qed.

(** The filter is not by the tag without its namespace: with
    [rm_namespace] off the child [{ns}line] is flattened although its tag
    without namespace is the skipped tag [line]. *)
Lemma skip_compares_processed_tag :
  ~ (forall node_tag node_text node_attrib node_children prefix sep max_depth
            strip rm_namespace s d,
       _update_dict_from_node
         (mkElement node_tag node_text node_attrib node_children)
         prefix sep max_depth strip rm_namespace (Some s) d
       = _update_dict_from_node
           (mkElement node_tag node_text node_attrib
              (kept_children true s node_children))
           prefix sep max_depth strip rm_namespace None d).
Proof.
  intros Hclaim.
  specialize (Hclaim "row" None [] [mkElement "{ns}line" (Some "x") [] []]
                None "_" None true false "line" []).
  vm_compute in Hclaim. discriminate.
Qed.

Example skip_line_ns_off :
  _update_dict_from_node
    (mkElement "row" None [] [mkElement "{ns}line" (Some "x") [] []])
    None "_" None true false (Some "line") []
  = ([("{ns}line", "x")], Ok tt).
Proof. reflexivity. Qed.

Example skip_line_ns_on :
  _update_dict_from_node
    (mkElement "row" None [] [mkElement "{ns}line" (Some "x") [] []])
    None "_" None true true (Some "line") []
  = ([], Ok tt).
Proof. reflexivity. Qed.

Lemma bind_run_ok {A B} (m : M A) (f : A -> M B) (d d' : dict) (a : A) :
  m d = (d', Ok a) -> bind m f d = f a d'.
Proof. intros Hm. unfold bind. by rewrite Hm. Qed.

Lemma bind_run_raise {A B} (m : M A) (f : A -> M B) (d d' : dict) (e : exn) :
  m d = (d', Raise e) -> bind m f d = (d', Raise e).
Proof. intros Hm. unfold bind. by rewrite Hm. Qed.

Lemma nocollision_singleton_new (d : dict) (k v : string) :
  k ∉ keys d -> _update_dict_nocollision [(k, v)] d = (d ++ [(k, v)], Ok tt).
Proof.
  intros Hk. apply nocollision_ok. split; [apply NoDup_singleton|].
  split; [|done]. intros k' H1 H2. simpl in H2.
  apply list_elem_of_singleton in H2 as ->. done.
Qed.

Lemma nocollision_singleton_old (d : dict) (k v : string) :
  k ∈ keys d ->
  _update_dict_nocollision [(k, v)] d
  = (dict_setitem d k v, Raise (XMLParsingError {[k]})).
Proof.
  intros Hk. rewrite nocollision_raise.
  - simpl. do 3 f_equal. set_solver.
  - intros [_ Hdis]. apply (Hdis k Hk). simpl. left.
Qed.

(** The text block runs first: the rest of the flattening is that of the
    node without text, from the dict the text block leaves. *)
Lemma text_block_then_rest node_tag node_text node_attrib node_children prefix
    sep max_depth strip rm_namespace skip_child_tag (d d1 : dict) :
  text_block node_tag node_text prefix strip rm_namespace d = (d1, Ok tt) ->
  _update_dict_from_node
    (mkElement node_tag node_text node_attrib node_children)
    prefix sep max_depth strip rm_namespace skip_child_tag d
  = _update_dict_from_node
      (mkElement node_tag None node_attrib node_children)
      prefix sep max_depth strip rm_namespace skip_child_tag d1.
Proof.
  intros Htext.
  rewrite (update_dict_from_node_blocks node_tag node_text),
    (update_dict_from_node_blocks node_tag None).
  by rewrite (bind_run_ok _ _ _ _ _ Htext).
Qed.

Lemma text_block_raise node_tag node_text node_attrib node_children prefix
    sep max_depth strip rm_namespace skip_child_tag (d d1 : dict) (e : exn) :
  text_block node_tag node_text prefix strip rm_namespace d = (d1, Raise e) ->
  _update_dict_from_node
    (mkElement node_tag node_text node_attrib node_children)
    prefix sep max_depth strip rm_namespace skip_child_tag d
  = (d1, Raise e).
Proof.
  intros Htext. rewrite update_dict_from_node_blocks.
  by apply bind_run_raise.
Qed.

(** C7. With [value] the text of the node, stripped exactly when [strip] is
    set: when the text is absent or [value] is empty, the node is flattened
    like the node without text, so no text entry is made.  Otherwise one
    entry of value [value] is merged first: on a dict without its key the
    flattening goes on from the dict with the entry appended, on a dict with
    its key the merge raises.  The key is the prefix when there is one.
    Without a prefix it is the tag of the node as it is when [rm_namespace]
    is off; when [rm_namespace] is on it is the tag without its namespace,
    that is the part [local] of the tag after its last closing brace, the
    whole tag when it has none (and when [local] holds an opening brace no
    entry is made and the assertion error is raised). *)
Theorem C7_text_entry node_tag node_text node_attrib node_children prefix sep
    max_depth strip rm_namespace skip_child_tag (d : dict) :
  let run t :=
    _update_dict_from_node
      (mkElement node_tag t node_attrib node_children)
      prefix sep max_depth strip rm_namespace skip_child_tag in
  let entry k value :=
    (k ∉ keys d -> run node_text d = run None (d ++ [(k, value)]))
    /\ (k ∈ keys d ->
        run node_text d
        = (dict_setitem d k value, Raise (XMLParsingError {[k]}))) in
  match (fun t => if strip then py_strip t else t) <$> node_text with
  | None | Some EmptyString => run node_text d = run None d
  | Some value =>
      (forall p, prefix = Some p -> entry p value)
      /\ (prefix = None -> rm_namespace = false -> entry node_tag value)
      /\ (prefix = None -> rm_namespace = true ->
          (exists local,
             (node_tag = local \/ exists ns, node_tag = ns +:+ "}" +:+ local)
             /\ str_in "}" local = false)
          /\ forall local,
               (node_tag = local \/ exists ns, node_tag = ns +:+ "}" +:+ local) ->
               str_in "}" local = false ->
               (str_in "{" local = false -> entry local value)
               /\ (str_in "{" local = true ->
                   run node_text d = (d, Raise (AssertionError local))))
  end.
Proof.
  intros run entry. unfold entry, run. clear run entry.
  destruct node_text as [t|]; simpl; [|done].
  destruct (if strip then py_strip t else t) as [|c value'] eqn:Hvalue.
  - apply text_block_then_rest. unfold text_block. by rewrite Hvalue.
  - assert (forall d1,
              text_block node_tag (Some t) prefix strip rm_namespace d1
              = (let* k := lift (text_key node_tag prefix rm_namespace) in
                 _update_dict_nocollision [(k, String c value')]) d1) as Htext.
    { intros d1. unfold text_block. by rewrite Hvalue. }
    assert (forall k,
              text_key node_tag prefix rm_namespace = Ok k ->
              (k ∉ keys d ->
               _update_dict_from_node
                 (mkElement node_tag (Some t) node_attrib node_children)
                 prefix sep max_depth strip rm_namespace skip_child_tag d
               = _update_dict_from_node
                   (mkElement node_tag None node_attrib node_children)
                   prefix sep max_depth strip rm_namespace skip_child_tag
                   (d ++ [(k, String c value')]))
              /\ (k ∈ keys d ->
                  _update_dict_from_node
                    (mkElement node_tag (Some t) node_attrib node_children)
                    prefix sep max_depth strip rm_namespace skip_child_tag d
                  = (dict_setitem d k (String c value'),
                     Raise (XMLParsingError {[k]})))) as Hentry.
    { intros k Hkey. split; intros Hk.
      - apply text_block_then_rest. rewrite Htext, Hkey.
        unfold bind, lift. by apply nocollision_singleton_new.
      - apply text_block_raise. rewrite Htext, Hkey.
        unfold bind, lift. by apply nocollision_singleton_old. }
    split; [|split].
    + intros p ->. by apply Hentry.
    + intros -> ->. by apply Hentry.
    + intros -> ->. split; [apply after_last_brace_exists|].
      intros local Hsplit Hclose.
      pose proof (process_tag_after_last_brace node_tag local Hsplit Hclose)
        as Htag.
      split; intros Hopen; rewrite Hopen in Htag.
      * by apply Hentry.
      * apply text_block_raise. rewrite Htext. unfold text_key.
        by rewrite Htag.
Qed.

Lemma C7_text_entry_witness :
  _update_dict_from_node
    (mkElement "{http://x}item" (Some " hello ") [("a", "1")] [])
    None "_" None true true None [("ver", "3")]
  = _update_dict_from_node
      (mkElement "{http://x}item" None [("a", "1")] [])
      None "_" None true true None ([("ver", "3")] ++ [("item", "hello")]).
Proof.
  pose proof (C7_text_entry "{http://x}item" (Some " hello ") [("a", "1")] []
                None "_" None true true None [("ver", "3")]) as Htext.
  destruct Htext as (_ & _ & Htext).
  destruct (Htext eq_refl eq_refl) as (_ & Hlocal).
  apply (Hlocal "item").
  - right. by exists "{http://x".
  - reflexivity.
  - reflexivity.
  - simpl. intros Hin. apply list_elem_of_singleton in Hin. discriminate.
Defined.

Example text_key_without_namespace :
  _update_dict_from_node (mkElement "{http://x}item" (Some "v") [] [])
    None "_" None true true None []
  = ([("item", "v")], Ok tt).
Proof. reflexivity. Qed.

Example text_key_with_namespace :
  _update_dict_from_node (mkElement "{http://x}item" (Some "v") [] [])
    None "_" None true false None []
  = ([("{http://x}item", "v")], Ok tt).
Proof. reflexivity. Qed.

Example text_stripped :
  _update_dict_from_node (mkElement "item" (Some "  hello
") [] []) None "_" None true true None []
  = ([("item", "hello")], Ok tt).
Proof. reflexivity. Qed.

Example text_unstripped :
  _update_dict_from_node (mkElement "item" (Some "  hello
") [] []) None "_" None false true None []
  = ([("item", "  hello
")], Ok tt).
Proof. reflexivity. Qed.

Example text_blank :
  _update_dict_from_node (mkElement "item" (Some "
  ") [] []) None "_" None true true None []
  = ([], Ok tt).
Proof. reflexivity. Qed.

Lemma append_inj_r (p a b : string) : p +:+ a = p +:+ b -> a = b.
Proof. induction p as [|c p IH]; simpl; [done|]. intros [= H]. auto. Qed.

Lemma attrib_key_inj prefix sep : Inj (=) (=) (attrib_key prefix sep).
Proof.
  intros a b. unfold attrib_key. destruct prefix as [p|]; [|done].
  intros H. by do 2 apply append_inj_r in H.
Qed.

Lemma attrib_entries_keys prefix sep (node_attrib : dict) :
  keys (attrib_entries prefix sep node_attrib)
  = attrib_key prefix sep <$> keys node_attrib.
Proof.
  unfold keys, attrib_entries.
  induction node_attrib as [|[k v] r IH]; simpl; [done|]. f_equal. exact IH.
Qed.

Lemma attrib_entries_NoDup prefix sep (node_attrib : dict) :
  NoDup (keys node_attrib) -> NoDup (keys (attrib_entries prefix sep node_attrib)).
Proof.
  intros Hnd. rewrite attrib_entries_keys.
  apply (NoDup_fmap_2 (attrib_key prefix sep) (Inj0 := attrib_key_inj prefix sep)).
  done.
Qed.

(** For an attribute dict the comprehension on line 53 has one item per
    attribute, so the attribute block is one merge of the attribute
    entries. *)
Lemma attrib_block_merge prefix sep (node_attrib : dict) (d : dict) :
  NoDup (keys node_attrib) ->
  attrib_block node_attrib prefix sep d
  = _update_dict_nocollision (attrib_entries prefix sep node_attrib) d.
Proof.
  intros Hnd. unfold attrib_block.
  destruct node_attrib as [|kv r].
  - simpl. symmetry. apply nocollision_ok.
    split; [constructor|]. split; [apply keys_disjoint_nil_r|].
    by rewrite app_nil_r.
  - assert ((len (kv :: r) >? 0) = true) as ->.
    { apply Z.gtb_lt. unfold len. simpl. lia. }
    f_equal. unfold dict_of_items.
    change (map _ (kv :: r)) with (attrib_entries prefix sep (kv :: r)).
    rewrite dict_update_disjoint; [done| |apply keys_disjoint_nil_l].
    by apply attrib_entries_NoDup.
Qed.

Lemma text_only_node node_tag node_text prefix sep max_depth strip rm_namespace
    skip_child_tag (d : dict) :
  _update_dict_from_node (mkElement node_tag node_text [] [])
    prefix sep max_depth strip rm_namespace skip_child_tag d
  = text_block node_tag node_text prefix strip rm_namespace d.
Proof.
  rewrite update_dict_from_node_blocks. rewrite descends_nil.
  unfold bind. by destruct (text_block _ _ _ _ _ d) as [d' [[]|e]].
Qed.

Lemma children_only_node node_tag node_children prefix sep max_depth strip
    rm_namespace skip_child_tag (d : dict) :
  _update_dict_from_node (mkElement node_tag None [] node_children)
    prefix sep max_depth strip rm_namespace skip_child_tag d
  = (if descends max_depth node_children then
       children_block prefix sep (decrement max_depth) strip rm_namespace
         skip_child_tag node_children
     else ret tt) d.
Proof. by rewrite update_dict_from_node_blocks. Qed.

(** C8. Let [d0] be the dict after the text entry of the node (what
    flattening the node without attributes and children leaves), its
    attributes being an attribute dict.  The attribute entries are one entry
    per attribute, in order: the key is the attribute name without a prefix
    and [prefix + sep + name] with one, the value is the attribute value as
    it is, whatever [strip].  When [d0] has none of their keys, the
    flattening goes on with the children from [d0] with exactly these
    entries appended; otherwise the merge raises. *)
Theorem C8_attribute_entries node_tag node_text node_attrib node_children
    prefix sep max_depth strip rm_namespace skip_child_tag (d d0 : dict) :
  NoDup (keys node_attrib) ->
  _update_dict_from_node (mkElement node_tag node_text [] [])
    prefix sep max_depth strip rm_namespace skip_child_tag d = (d0, Ok tt) ->
  let entries := attrib_entries prefix sep node_attrib in
  (keys_disjoint d0 entries ->
   _update_dict_from_node
     (mkElement node_tag node_text node_attrib node_children)
     prefix sep max_depth strip rm_namespace skip_child_tag d
   = _update_dict_from_node (mkElement node_tag None [] node_children)
       prefix sep max_depth strip rm_namespace skip_child_tag
       (d0 ++ entries))
  /\ (~ keys_disjoint d0 entries ->
      _update_dict_from_node
        (mkElement node_tag node_text node_attrib node_children)
        prefix sep max_depth strip rm_namespace skip_child_tag d
      = (dict_update d0 entries,
         Raise (XMLParsingError (list_to_set (keys entries)))))
  /\ length entries = length node_attrib
  /\ (forall i k v,
        node_attrib !! i = Some (k, v) ->
        entries !! i
        = Some (match prefix with
                | None => k
                | Some p => p +:+ sep +:+ k
                end, v)).
Proof.
  intros Hnd Htext entries. rewrite text_only_node in Htext.
  pose proof (attrib_entries_NoDup prefix sep node_attrib Hnd) as Hnd'.
  fold entries in Hnd'.
  split; [|split; [|split]].
  - intros Hdis. rewrite children_only_node.
    rewrite update_dict_from_node_blocks.
    rewrite (bind_run_ok _ _ _ _ _ Htext).
    assert (attrib_block node_attrib prefix sep d0 = (d0 ++ entries, Ok tt))
      as Hattrib.
    { rewrite attrib_block_merge by done. by apply nocollision_ok. }
    by rewrite (bind_run_ok _ _ _ _ _ Hattrib).
  - intros Hno. rewrite update_dict_from_node_blocks.
    rewrite (bind_run_ok _ _ _ _ _ Htext).
    apply bind_run_raise. rewrite attrib_block_merge by done.
    apply nocollision_raise. tauto.
  - unfold entries, attrib_entries. apply length_map.
  - intros i k v. unfold entries, attrib_entries. clear.
    revert i. induction node_attrib as [|kv r IH]; intros [|i]; simpl; try done.
    + by intros [= ->].
    + apply IH.
Qed.

Lemma C8_attribute_entries_witness :
  _update_dict_from_node
    (mkElement "item" (Some " t ") [("a", " 1 "); ("b", "2")] [])
    (Some "row") "_" None true true None []
  = _update_dict_from_node (mkElement "item" None [] [])
      (Some "row") "_" None true true None
      ([("row", "t")] ++ [("row_a", " 1 "); ("row_b", "2")]).
Proof.
  apply (C8_attribute_entries "item" (Some " t ") [("a", " 1 "); ("b", "2")] []
           (Some "row") "_" None true true None [] [("row", "t")]).
  - simpl. apply NoDup_cons. split; [|apply NoDup_singleton].
    intros H. apply list_elem_of_singleton in H. discriminate.
  - reflexivity.
  - intros k H1 H2. simpl in H1, H2.
    apply list_elem_of_singleton in H1 as ->.
    apply elem_of_cons in H2 as [H2|H2]; [discriminate|].
    apply list_elem_of_singleton in H2. discriminate.
Defined.

Example attrib_unstripped :
  _update_dict_from_node
    (mkElement "item" (Some " t ") [("a", " 1 "); ("b", "2")] [])
    (Some "row") "_" None true true None []
  = ([("row", "t"); ("row_a", " 1 "); ("row_b", "2")], Ok tt).
Proof. reflexivity. Qed.

(** * The record assembler *)

Section ParseFacts.

Variable findall : Element -> string -> list Element.
Variables (sep : string) (strip_text remove_namespace : bool)
          (namespace : string).

Local Abbreviation run node prefix max_depth skip :=
  (_update_dict_from_node node prefix sep max_depth strip_text
     remove_namespace skip).
Local Abbreviation parse_meta' :=
  (parse_meta findall sep strip_text remove_namespace namespace).
Local Abbreviation parse_subrows' :=
  (parse_subrows sep strip_text remove_namespace).
Local Abbreviation parse_rows' :=
  (parse_rows findall sep strip_text remove_namespace namespace).
Local Abbreviation parse' :=
  (parse findall sep strip_text remove_namespace namespace).

(** The subrow loop appends one record per subrow node, each the row dict
    with the subrow flattened into it. *)
Lemma parse_subrows_records row_d prefix rows_max_depth
    (subrow_nodes : list Element) (records out : list dict) :
  parse_subrows' row_d prefix rows_max_depth subrow_nodes records = Ok out
  <-> exists news,
        out = records ++ news
        /\ Forall2 (fun sr_node subrow_d =>
                      run sr_node prefix rows_max_depth None row_d
                      = (subrow_d, Ok tt))
             subrow_nodes news.
Proof.
  revert records. induction subrow_nodes as [|sr rest IH]; intros records; simpl.
  - split.
    + intros [= <-]. exists []. by rewrite app_nil_r.
    + intros (news & -> & Hall). apply Forall2_nil_inv_l in Hall as ->.
      by rewrite app_nil_r.
  - destruct (run sr prefix rows_max_depth None row_d) as [subrow_d [[]|e]]
      eqn:Hrun.
    + rewrite IH. split.
      * intros (news & -> & Hall). exists (subrow_d :: news).
        rewrite <- app_assoc. split; [done|]. by constructor.
      * intros (news & -> & Hall).
        apply Forall2_cons_inv_l in Hall as (rec & news' & Hrec & Hall & ->).
        rewrite Hrun in Hrec. injection Hrec as ->.
        exists news'. by rewrite <- app_assoc.
    + split; [done|]. intros (news & _ & Hall).
      apply Forall2_cons_inv_l in Hall as (rec & news' & Hrec & _ & _).
      rewrite Hrun in Hrec. done.
Qed.

(** Without a subrow tag the row loop appends one record per row node: the
    metadata dict with the row flattened into it. *)
Lemma parse_rows_records meta_d prefix rows_max_depth
    (row_nodes : list Element) (records out : list dict) :
  parse_rows' meta_d None prefix rows_max_depth row_nodes records = Ok out
  <-> exists news,
        out = records ++ news
        /\ Forall2 (fun r_node row_d =>
                      run r_node prefix rows_max_depth None meta_d
                      = (row_d, Ok tt))
             row_nodes news.
Proof.
  revert records. induction row_nodes as [|r rest IH]; intros records; simpl.
  - split.
    + intros [= <-]. exists []. by rewrite app_nil_r.
    + intros (news & -> & Hall). apply Forall2_nil_inv_l in Hall as ->.
      by rewrite app_nil_r.
  - destruct (run r prefix rows_max_depth None meta_d) as [row_d [[]|e]]
      eqn:Hrun.
    + rewrite IH. split.
      * intros (news & -> & Hall). exists (row_d :: news).
        rewrite <- app_assoc. split; [done|]. by constructor.
      * intros (news & -> & Hall).
        apply Forall2_cons_inv_l in Hall as (rec & news' & Hrec & Hall & ->).
        rewrite Hrun in Hrec. injection Hrec as ->.
        exists news'. by rewrite <- app_assoc.
    + split; [done|]. intros (news & _ & Hall).
      apply Forall2_cons_inv_l in Hall as (rec & news' & Hrec & _ & _).
      rewrite Hrun in Hrec. done.
Qed.

(** With a subrow tag the row loop appends, per row node, one record per
    subrow node found below it. *)
Lemma parse_rows_subrow_records meta_d t prefix rows_max_depth
    (row_nodes : list Element) (records out : list dict) :
  parse_rows' meta_d (Some t) prefix rows_max_depth row_nodes records = Ok out
  <-> exists groups,
        out = records ++ concat groups
        /\ Forall2 (fun r_node group =>
                      exists row_d,
                        run r_node prefix rows_max_depth (Some t) meta_d
                        = (row_d, Ok tt)
                        /\ Forall2 (fun sr_node subrow_d =>
                                      run sr_node prefix rows_max_depth None
                                        row_d = (subrow_d, Ok tt))
                             (findall r_node (_list_to_path [t] namespace))
                             group)
             row_nodes groups.
Proof.
  revert records. induction row_nodes as [|r rest IH]; intros records; simpl.
  - split.
    + intros [= <-]. exists []. by rewrite app_nil_r.
    + intros (groups & -> & Hall). apply Forall2_nil_inv_l in Hall as ->.
      by rewrite app_nil_r.
  - destruct (run r prefix rows_max_depth (Some t) meta_d) as [row_d [[]|e]]
      eqn:Hrun.
    + destruct (parse_subrows' row_d prefix rows_max_depth _ records)
        as [records'|e] eqn:Hsub.
      * apply parse_subrows_records in Hsub as (news & -> & Hnews).
        rewrite IH. split.
        -- intros (groups & -> & Hall). exists (news :: groups).
           simpl. rewrite <- app_assoc. split; [done|].
           constructor; [|done]. exists row_d. done.
        -- intros (groups & -> & Hall).
           apply Forall2_cons_inv_l in Hall
             as (group & groups' & (row_d' & Hrow & Hgroup) & Hall & ->).
           rewrite Hrun in Hrow. injection Hrow as <-.
           exists groups'. split; [|done]. simpl. rewrite <- app_assoc.
           do 2 f_equal.
           assert (parse_subrows' row_d prefix rows_max_depth
                     (findall r (_list_to_path [t] namespace)) records
                   = Ok (records ++ group)) as Hgroup'.
           { apply parse_subrows_records. eauto. }
           assert (parse_subrows' row_d prefix rows_max_depth
                     (findall r (_list_to_path [t] namespace)) records
                   = Ok (records ++ news)) as Hnews'.
           { apply parse_subrows_records. eauto. }
           rewrite Hgroup' in Hnews'. injection Hnews' as Heq.
           by apply app_inv_head in Heq.
      * split; [done|]. intros (groups & _ & Hall).
        apply Forall2_cons_inv_l in Hall
          as (group & groups' & (row_d' & Hrow & Hgroup) & _ & _).
        rewrite Hrun in Hrow. injection Hrow as <-.
        assert (parse_subrows' row_d prefix rows_max_depth
                  (findall r (_list_to_path [t] namespace)) records
                = Ok (records ++ group)) as Hgroup'.
        { apply parse_subrows_records. eauto. }
        congruence.
    + split; [done|]. intros (groups & _ & Hall).
      apply Forall2_cons_inv_l in Hall
        as (group & groups' & (row_d' & Hrow & _) & _ & _).
      rewrite Hrun in Hrow. done.
Qed.

(** ** Metadata *)

(** The prefix of the metadata node of path [m_path] (line 124). *)
Definition meta_prefix_of (meta_prefix : bool) (m_path : list string) : option string :=
  if meta_prefix then _list_to_prefix m_path sep else None.

(** The metadata paths that resolve, each with the node it resolves to. *)
Definition found_meta (tree : Element) (meta_paths : list (list string)) : list (list string * Element) :=
  omap (fun m_path =>
          match find findall tree (_list_to_path m_path namespace) with
          | Some m_node => Some (m_path, m_node)
          | None => None
          end) meta_paths.

Lemma run_appends node prefix max_depth skip (d d' : dict) :
  run node prefix max_depth skip d = (d', Ok tt) -> exists f, d' = d ++ f.
Proof.
  intros Hrun. apply update_dict_from_node_flatten in Hrun
    as (f & _ & _ & _ & ->). eauto.
Qed.

(** The metadata loop succeeds exactly when the flat records of the found
    metadata nodes exist and their concatenation is a collision-free
    extension of the dict, which it then appends. *)
Lemma parse_meta_records tree meta_prefix meta_max_depth
    (meta_paths : list (list string)) (d d' : dict) :
  parse_meta' tree meta_prefix meta_max_depth meta_paths d = (d', Ok tt)
  <-> exists fs,
        Forall2 (fun pm f =>
                   flatten pm.2 (meta_prefix_of meta_prefix pm.1) sep
                     meta_max_depth strip_text remove_namespace None = Ok f)
          (found_meta tree meta_paths) fs
        /\ NoDup (keys (concat fs)) /\ keys_disjoint d (concat fs)
        /\ d' = d ++ concat fs.
Proof.
  revert d. induction meta_paths as [|p ps IH]; intros d.
  - simpl. split.
    + intros [= <-]. exists []. simpl. rewrite app_nil_r.
      repeat split; [constructor|constructor|apply keys_disjoint_nil_r].
    + intros (fs & Hall & _ & _ & ->).
      apply Forall2_nil_inv_l in Hall as ->. simpl. by rewrite app_nil_r.
  - simpl. destruct (find findall tree (_list_to_path p namespace))
      as [m|] eqn:Hfind.
    + fold (meta_prefix_of meta_prefix p). unfold bind at 1.
      destruct (run m (meta_prefix_of meta_prefix p) meta_max_depth None d)
        as [d1 [[]|e]] eqn:Hrun.
      * apply update_dict_from_node_flatten in Hrun
          as (f & Hf & Hndf & Hdf & ->).
        rewrite IH. split.
        -- intros (fs & Hall & Hnd & Hdis & ->).
           apply keys_disjoint_app_l in Hdis as [Hd Hf'].
           exists (f :: fs). simpl. rewrite app_assoc.
           split; [by constructor|].
           split; [by apply NoDup_keys_app|].
           split; [by apply keys_disjoint_app_r|done].
        -- intros (fs & Hall & Hnd & Hdis & ->).
           apply Forall2_cons_inv_l in Hall as (f' & fs' & Hf' & Hall & ->).
           simpl in Hf'. rewrite Hf in Hf'. injection Hf' as <-.
           simpl in Hnd, Hdis.
           apply NoDup_keys_app in Hnd as (_ & Hffs & Hnd).
           apply keys_disjoint_app_r in Hdis as [_ Hdis].
           exists fs'. simpl. rewrite app_assoc.
           split; [done|]. split; [done|].
           split; [by apply keys_disjoint_app_l|done].
      * split; [done|]. intros (fs & Hall & Hnd & Hdis & _).
        apply Forall2_cons_inv_l in Hall as (f' & fs' & Hf' & Hall & ->).
        simpl in Hf', Hnd, Hdis.
        apply NoDup_keys_app in Hnd as (Hndf & _ & _).
        apply keys_disjoint_app_r in Hdis as [Hdis _].
        assert (run m (meta_prefix_of meta_prefix p) meta_max_depth None d
                = (d ++ f', Ok tt)) as Hok.
        { apply update_dict_from_node_flatten. eauto. }
        congruence.
    + unfold bind at 1. simpl. apply IH.
Qed.

(** The prefix of the row and subrow fields (line 140). *)
Definition rows_prefix_of (rows_prefix : bool) (rows_path : list string) : option string :=
  if rows_prefix then _list_to_prefix rows_path sep else None.

(** [meta_paths] after lines 116-117. *)
Definition meta_paths_of (meta_paths : option (list (list string))) : list (list string) :=
  match meta_paths with None => [] | Some l => l end.

(** A successful [parse] is a successful metadata loop followed by a
    successful row loop. *)
Lemma parse_ok tree rows_path subrow_tag meta_paths rows_prefix meta_prefix
    rows_max_depth meta_max_depth (records : list dict) :
  parse' tree rows_path subrow_tag meta_paths rows_prefix meta_prefix
    rows_max_depth meta_max_depth = Ok records
  <-> exists meta_d,
        parse_meta' tree meta_prefix meta_max_depth
          (meta_paths_of meta_paths) [] = (meta_d, Ok tt)
        /\ parse_rows' meta_d subrow_tag
             (rows_prefix_of rows_prefix rows_path) rows_max_depth
             (findall tree (_list_to_path rows_path namespace)) []
           = Ok records.
Proof.
  unfold parse. fold (meta_paths_of meta_paths).
  fold (rows_prefix_of rows_prefix rows_path).
  destruct (parse_meta' tree meta_prefix meta_max_depth _ [])
    as [meta_d [[]|e]].
  - split; [eauto|]. intros (meta_d' & [= <-] & Hrows). done.
  - split; [done|]. intros (meta_d' & [=] & _).
Qed.

(** C5. Every metadata path is resolved with [find], the first node that
    [findall] gives for it.  A path that resolves to no node leaves the
    metadata dict as it is and raises nothing; a path that resolves has its
    first node flattened into the metadata dict.  When [parse] returns, the
    metadata dict is the concatenation of the flat records of all found
    nodes, and every returned record starts with it, so holds every
    metadata field. *)
Theorem C5_metadata_in_every_record tree rows_path subrow_tag meta_paths
    rows_prefix meta_prefix rows_max_depth meta_max_depth :
  (forall m_path rest d,
     findall tree (_list_to_path m_path namespace) = [] ->
     parse_meta' tree meta_prefix meta_max_depth (m_path :: rest) d
     = parse_meta' tree meta_prefix meta_max_depth rest d)
  /\ (forall m_path rest d m_node others,
        findall tree (_list_to_path m_path namespace) = m_node :: others ->
        parse_meta' tree meta_prefix meta_max_depth (m_path :: rest) d
        = (let* _ := run m_node (meta_prefix_of meta_prefix m_path)
                       meta_max_depth None in
           parse_meta' tree meta_prefix meta_max_depth rest) d)
  /\ (forall records,
        parse' tree rows_path subrow_tag meta_paths rows_prefix meta_prefix
          rows_max_depth meta_max_depth = Ok records ->
        exists meta_d fs,
          parse_meta' tree meta_prefix meta_max_depth
            (meta_paths_of meta_paths) [] = (meta_d, Ok tt)
          /\ Forall2 (fun pm f =>
                        flatten pm.2 (meta_prefix_of meta_prefix pm.1) sep
                          meta_max_depth strip_text remove_namespace None
                        = Ok f)
               (found_meta tree (meta_paths_of meta_paths)) fs
          /\ meta_d = concat fs
          /\ Forall (fun record => exists fields, record = meta_d ++ fields)
               records
          /\ (forall record k v,
                record ∈ records -> (k, v) ∈ meta_d -> (k, v) ∈ record)).
Proof.
  split; [|split].
  - intros m_path rest d Hnone. simpl. unfold find. rewrite Hnone. simpl.
    done.
  - intros m_path rest d m_node others Hsome. simpl. unfold find.
    rewrite Hsome. simpl. done.
  - intros records Hparse.
    apply parse_ok in Hparse as (meta_d & Hmeta & Hrows).
    pose proof Hmeta as Hmeta'.
    apply parse_meta_records in Hmeta' as (fs & Hfs & _ & _ & Heq).
    simpl in Heq.
    assert (Forall (fun record => exists fields, record = meta_d ++ fields)
              records) as Hall.
    { destruct subrow_tag as [t|].
      - apply parse_rows_subrow_records in Hrows as (groups & -> & Hgroups).
        simpl. apply Forall_concat.
        induction Hgroups as [|r group rs groups (row_d & Hrow & Hsubs) _ IH];
          constructor; [|exact IH].
        apply run_appends in Hrow as (f & ->).
        induction Hsubs as [|sr subrow_d srs subs Hsub _ IHs];
          constructor; [|exact IHs].
        apply run_appends in Hsub as (f' & ->).
        exists (f ++ f'). by rewrite app_assoc.
      - apply parse_rows_records in Hrows as (news & -> & Hnews).
        simpl.
        induction Hnews as [|r row_d rs news Hrow _ IH];
          constructor; [|exact IH].
        by apply run_appends in Hrow. }
    exists meta_d, fs. repeat split; try done.
    intros record k v Hrec Hkv.
    rewrite Forall_forall in Hall. destruct (Hall record Hrec) as (fields & ->).
    apply elem_of_app. by left.
Qed.

(** ** Subrows *)

(** C4. With a subrow tag [t], [parse] returns exactly when the metadata
    loop succeeds and the records are, for the row nodes in the order of
    [findall], one group per row node and, inside the group of a row, one
    record per node that [findall] gives for the subrow path below that
    row, in that order: the record is the concatenation of the metadata
    dict, the flat record of the row (its children of tag [t] skipped) and
    the flat record of the subrow, with no key twice.  A row with no such
    node has an empty group. *)
Theorem C4_one_record_per_subrow tree rows_path t meta_paths
    rows_prefix meta_prefix rows_max_depth meta_max_depth
    (records : list dict) :
  parse' tree rows_path (Some t) meta_paths rows_prefix meta_prefix
    rows_max_depth meta_max_depth = Ok records
  <-> exists meta_d groups,
        parse_meta' tree meta_prefix meta_max_depth
          (meta_paths_of meta_paths) [] = (meta_d, Ok tt)
        /\ records = concat groups
        /\ Forall2 (fun r_node group =>
             exists row_f,
               flatten r_node (rows_prefix_of rows_prefix rows_path) sep
                 rows_max_depth strip_text remove_namespace (Some t)
               = Ok row_f
               /\ NoDup (keys (meta_d ++ row_f))
               /\ Forall2 (fun sr_node record =>
                    exists subrow_f,
                      flatten sr_node (rows_prefix_of rows_prefix rows_path)
                        sep rows_max_depth strip_text remove_namespace None
                      = Ok subrow_f
                      /\ record = meta_d ++ row_f ++ subrow_f
                      /\ NoDup (keys record))
                    (findall r_node (_list_to_path [t] namespace)) group)
             (findall tree (_list_to_path rows_path namespace)) groups.
Proof.
  rewrite parse_ok. split.
  - intros (meta_d & Hmeta & Hrows). exists meta_d.
    pose proof Hmeta as Hmeta'.
    apply parse_meta_records in Hmeta' as (fs & _ & Hndm & _ & Hmd).
    simpl in Hmd. rewrite <- Hmd in Hndm. clear fs Hmd.
    apply parse_rows_subrow_records in Hrows as (groups & -> & Hgroups).
    exists groups. split; [done|]. split; [done|].
    eapply Forall2_impl; [exact Hgroups|].
    intros r group (row_d & Hrow & Hsubs). simpl in Hrow, Hsubs.
    apply update_dict_from_node_flatten in Hrow
      as (row_f & Hrf & Hndr & Hdr & ->).
    exists row_f. split; [done|].
    assert (NoDup (keys (meta_d ++ row_f))) as Hndmr
      by (by apply NoDup_keys_app).
    split; [done|].
    eapply Forall2_impl; [exact Hsubs|].
    intros sr record Hsub. simpl in Hsub.
    apply update_dict_from_node_flatten in Hsub
      as (subrow_f & Hsf & Hnds & Hds & ->).
    exists subrow_f. rewrite <- app_assoc. split; [done|]. split; [done|].
    rewrite app_assoc. by apply NoDup_keys_app.
  - intros (meta_d & groups & Hmeta & -> & Hgroups).
    exists meta_d. split; [done|].
    apply parse_rows_subrow_records. exists groups. split; [done|].
    eapply Forall2_impl; [exact Hgroups|].
    intros r group (row_f & Hrf & Hndmr & Hsubs). simpl in Hrf, Hsubs.
    pose proof Hndmr as Hparts.
    apply NoDup_keys_app in Hparts as (_ & Hdr & Hndr).
    exists (meta_d ++ row_f). split.
    + apply update_dict_from_node_flatten. eauto.
    + eapply Forall2_impl; [exact Hsubs|].
      intros sr record (subrow_f & Hsf & -> & Hnd). simpl in Hsf.
      rewrite app_assoc in Hnd |- *.
      apply NoDup_keys_app in Hnd as (_ & Hds & Hnds).
      apply update_dict_from_node_flatten. eauto.
Qed.

(** ** Depth 0 *)

(** The records of [parse] at [rows_max_depth = 0] hold nothing of the rows
    but their own text and attributes: every record is the metadata dict
    with the row node, taken without its children, flattened into it. *)
Definition depth_0_records_own_fields (subrow_tag : option string)
    (tree : Element) (rows_path : list string)
    (meta_paths : option (list (list string))) (rows_prefix meta_prefix : bool)
    (meta_max_depth : option Z) : Prop :=
  forall records,
    parse' tree rows_path subrow_tag meta_paths rows_prefix meta_prefix
      (Some 0) meta_max_depth = Ok records ->
    exists meta_d,
      parse_meta' tree meta_prefix meta_max_depth (meta_paths_of meta_paths) []
      = (meta_d, Ok tt)
      /\ Forall2 (fun r_node record =>
                    run (childless r_node)
                      (rows_prefix_of rows_prefix rows_path) (Some 0) None
                      meta_d = (record, Ok tt))
           (findall tree (_list_to_path rows_path namespace)) records.

(** C3 (amended). Flattening with [max_depth = 0] is flattening the node
    without its children, so it makes entries from the node's own text and
    attributes only.  In [parse] with [rows_max_depth = 0]: without a subrow
    tag every record is the metadata dict extended by the row's own text and
    attributes only; with a subrow tag every record is the metadata dict
    extended by the row's own text and attributes and then by the own text
    and attributes of the subrow node it stands for, and by nothing below
    either of them. *)
Theorem C3_depth_0_own_fields :
  (forall node prefix skip_child_tag max_depth' skip_child_tag' d,
     run node prefix (Some 0) skip_child_tag d
     = run (childless node) prefix max_depth' skip_child_tag' d)
  /\ (forall tree rows_path meta_paths rows_prefix meta_prefix meta_max_depth,
        depth_0_records_own_fields None tree rows_path meta_paths rows_prefix
          meta_prefix meta_max_depth)
  /\ (forall t tree rows_path meta_paths rows_prefix meta_prefix
             meta_max_depth records,
        parse' tree rows_path (Some t) meta_paths rows_prefix meta_prefix
          (Some 0) meta_max_depth = Ok records ->
        exists meta_d groups,
          parse_meta' tree meta_prefix meta_max_depth
            (meta_paths_of meta_paths) [] = (meta_d, Ok tt)
          /\ records = concat groups
          /\ Forall2 (fun r_node group =>
               exists row_d,
                 run (childless r_node)
                   (rows_prefix_of rows_prefix rows_path) (Some 0) None meta_d
                 = (row_d, Ok tt)
                 /\ Forall2 (fun sr_node record =>
                      run (childless sr_node)
                        (rows_prefix_of rows_prefix rows_path) (Some 0) None
                        row_d = (record, Ok tt))
                      (findall r_node (_list_to_path [t] namespace)) group)
               (findall tree (_list_to_path rows_path namespace)) groups).
Proof.
  assert (forall node prefix skip_child_tag max_depth' skip_child_tag' d,
            run node prefix (Some 0) skip_child_tag d
            = run (childless node) prefix max_depth' skip_child_tag' d)
    as Hown.
  { intros. apply no_descent_childless. by apply descends_depth_0. }
  split; [exact Hown|split].
  - intros tree rows_path meta_paths rows_prefix meta_prefix meta_max_depth
      records Hparse.
    apply parse_ok in Hparse as (meta_d & Hmeta & Hrows).
    exists meta_d. split; [done|].
    apply parse_rows_records in Hrows as (news & -> & Hnews). simpl.
    eapply Forall2_impl; [exact Hnews|].
    intros r record Hrow. simpl in Hrow. by rewrite <- (Hown r _ None).
  - intros t tree rows_path meta_paths rows_prefix meta_prefix meta_max_depth
      records Hparse.
    apply parse_ok in Hparse as (meta_d & Hmeta & Hrows).
    exists meta_d.
    apply parse_rows_subrow_records in Hrows as (groups & -> & Hgroups).
    exists groups. split; [done|]. split; [done|].
    eapply Forall2_impl; [exact Hgroups|].
    intros r group (row_d & Hrow & Hsubs). simpl in Hrow, Hsubs.
    exists row_d. split; [by rewrite <- (Hown r _ (Some t))|].
    eapply Forall2_impl; [exact Hsubs|].
    intros sr record Hsub. simpl in Hsub. by rewrite <- (Hown sr _ None).
Qed.

End ParseFacts.

(** ** The assembler on a small document *)

(** [<root><meta><ver>3</ver></meta>
      <row id="7"><line a="1"/><line b="2"> x </line><name>n</name></row>
      <row>t</row></root>] *)
Definition example_row : Element :=
  mkElement "row" None [("id", "7")]
    [mkElement "line" None [("a", "1")] [];
     mkElement "line" (Some " x ") [("b", "2")] [];
     mkElement "name" (Some "n") [] []].

Definition example_tree : Element :=
  mkElement "root" None []
    [mkElement "meta" None [] [mkElement "ver" (Some "3") [] []];
     example_row;
     mkElement "row" (Some "t") [] []].

Example parse_rows_only :
  parse et_findall "_" true true "*" example_tree ["row"] None
    (Some [["meta"]; ["absent"]]) false false None None
  = Ok [[("ver", "3"); ("id", "7"); ("a", "1"); ("line", "x"); ("b", "2");
         ("name", "n")];
        [("ver", "3"); ("row", "t")]].
Proof. reflexivity. Qed.

Example parse_subrows_two :
  parse et_findall "_" true true "*" example_tree ["row"] (Some "line")
    (Some [["meta"]]) false false None None
  = Ok [[("ver", "3"); ("id", "7"); ("name", "n"); ("a", "1")];
        [("ver", "3"); ("id", "7"); ("name", "n"); ("line", "x"); ("b", "2")]].
Proof. reflexivity. Qed.

Example parse_prefixed :
  parse et_findall "_" true true "*" example_tree ["row"] None
    (Some [["meta"]]) true true None None
  = Ok [[("meta_ver", "3"); ("row_id", "7"); ("row_line_a", "1");
         ("row_line", "x"); ("row_line_b", "2"); ("row_name", "n")];
        [("meta_ver", "3"); ("row", "t")]].
Proof. reflexivity. Qed.

Example parse_depth_0_subrows :
  parse et_findall "_" true true "*" example_tree ["row"] (Some "line")
    None false false (Some 0) None
  = Ok [[("id", "7"); ("a", "1")]; [("id", "7"); ("line", "x"); ("b", "2")]].
Proof. reflexivity. Qed.

(** The claim as it stands fails with a subrow tag: at depth 0 the first
    record of the example holds the entry [a] of the row's child [line],
    which flattening the row without its children does not give. *)
Lemma C3_subrow_fields_counterexample :
  ~ depth_0_records_own_fields et_findall "_" true true "*" (Some "line")
      example_tree ["row"] None false false None.
Proof.
  intros Hclaim.
  destruct (Hclaim _ parse_depth_0_subrows) as (meta_d & Hmeta & Hall).
  vm_compute in Hmeta. injection Hmeta as <-.
  assert (et_findall example_tree (_list_to_path ["row"] "*")
          = [example_row; mkElement "row" (Some "t") [] []]) as Hrows
    by reflexivity.
  rewrite Hrows in Hall. apply Forall2_cons_1 in Hall as [Hrow _].
  vm_compute in Hrow. discriminate.
Qed.

(** ** A subrow in a namespace *)

(** [<root xmlns="ns"><row><line>x</line></row></root>] *)
Definition ns_line : Element := mkElement "{ns}line" (Some "x") [] [].

Definition ns_row : Element := mkElement "{ns}row" None [] [ns_line].

Definition ns_tree : Element := mkElement "{ns}root" None [] [ns_row].

(** C6. The child [{ns}line] of the row has the tag [line] once its
    namespace is removed, and it is the subrow node that [findall] gives
    for the subrow tag [line].  With [rm_namespace] off, flattening the row
    with [skip_child_tag] set to [line] does not leave it out: line 59
    compares the tag with its namespace.  So [parse] flattens it into the
    row and again as the subrow, and raises the key-collision error.  With
    [rm_namespace] on, the child is left out and [parse] returns the
    record. *)
Theorem C6_qualified_subrow_not_skipped :
  _process_tag (tag ns_line) true = Ok "line"
  /\ et_findall ns_row (_list_to_path ["line"] "*") = [ns_line]
  /\ _update_dict_from_node ns_row None "_" None true false (Some "line") []
     = ([("{ns}line", "x")], Ok tt)
  /\ _update_dict_from_node ns_row None "_" None true true (Some "line") []
     = ([], Ok tt)
  /\ parse et_findall "_" true false "*" ns_tree ["row"] (Some "line") None
       false false None None
     = Raise (XMLParsingError {["{ns}line"]})
  /\ parse et_findall "_" true true "*" ns_tree ["row"] (Some "line") None
       false false None None
     = Ok [[("line", "x")]].
Proof.
  repeat split; reflexivity.
Qed.

(** * Further properties of the merger *)

Lemma dict_get_elem (d : dict) (k v : string) :
  NoDup (keys d) -> (k, v) ∈ d -> dict_get d k = Some v.
Proof.
  induction d as [|[k0 v0] r IH]; simpl; intros Hnd Hin.
  - by apply elem_of_nil in Hin.
  - apply NoDup_cons in Hnd as [Hk0 Hnd].
    apply elem_of_cons in Hin as [[= -> ->]|Hin].
    + by rewrite decide_True.
    + rewrite decide_False; [by apply IH|].
      intros ->. apply Hk0. unfold keys.
      by apply (list_elem_of_fmap_2 fst r (k, v)).
Qed.

(** X1. The empty addition never collides and leaves the target as it is;
    into the empty target every dict is merged without collision and the
    target becomes that dict. *)
Theorem X1_merge_empty (d : dict) :
  _update_dict_nocollision [] d = (d, Ok tt)
  /\ (NoDup (keys d) -> _update_dict_nocollision d [] = (d, Ok tt)).
Proof.
  split.
  - apply nocollision_ok. split; [constructor|].
    split; [apply keys_disjoint_nil_r|]. by rewrite app_nil_r.
  - intros Hnd. apply nocollision_ok.
    split; [done|]. split; [apply keys_disjoint_nil_l|done].
Qed.

(** X2. Two additions with no key in common, so that the two put together
    are a dict: merging one and then the other succeeds exactly when the one
    merge of the two put together succeeds, and leaves the same dict.  Two
    additions with a key in common are never both merged: the second merge
    raises when the first has succeeded. *)
Theorem X2_merge_in_sequence (d1 d2 d3 : dict) :
  (NoDup (keys (d2 ++ d3)) ->
   forall d',
     (let* _ := _update_dict_nocollision d2 in _update_dict_nocollision d3) d1
     = (d', Ok tt)
     <-> _update_dict_nocollision (d2 ++ d3) d1 = (d', Ok tt))
  /\ (forall k, k ∈ keys d2 -> k ∈ keys d3 ->
      exists d' e,
        (let* _ := _update_dict_nocollision d2 in _update_dict_nocollision d3)
          d1 = (d', Raise e)).
Proof.
  split.
  - intros Hnd d'. rewrite (nocollision_ok d1 (d2 ++ d3)). unfold bind. split.
    + destruct (_update_dict_nocollision d2 d1) as [d1' [[]|e]] eqn:H2;
        [|done].
      apply nocollision_ok in H2 as (Hnd2 & Hdis2 & ->).
      intros H3. apply nocollision_ok in H3 as (Hnd3 & Hdis3 & ->).
      apply keys_disjoint_app_l in Hdis3 as [H13 H23].
      split; [done|].
      split; [by apply keys_disjoint_app_r|]. by rewrite app_assoc.
    + intros (_ & Hdis & ->).
      apply NoDup_keys_app in Hnd as (Hnd2 & H23 & Hnd3).
      apply keys_disjoint_app_r in Hdis as [H12 H13].
      assert (_update_dict_nocollision d2 d1 = (d1 ++ d2, Ok tt)) as ->
        by (by apply nocollision_ok).
      apply nocollision_ok. split; [done|].
      split; [by apply keys_disjoint_app_l|]. by rewrite app_assoc.
  - intros k Hk2 Hk3. unfold bind.
    destruct (_update_dict_nocollision d2 d1) as [d1' [[]|e]] eqn:H2;
      [|eauto].
    apply nocollision_ok in H2 as (_ & _ & ->).
    eexists _, _. apply nocollision_raise. intros [_ Hdis].
    apply (Hdis k); [|done]. rewrite keys_app. apply elem_of_app. by right.
Qed.

Lemma X2_merge_in_sequence_witness :
  (let* _ := _update_dict_nocollision [("b", "2")] in
   _update_dict_nocollision [("c", "3")]) [("a", "1")]
  = ([("a", "1"); ("b", "2"); ("c", "3")], Ok tt)
  <-> _update_dict_nocollision ([("b", "2")] ++ [("c", "3")]) [("a", "1")]
      = ([("a", "1"); ("b", "2"); ("c", "3")], Ok tt).
Proof.
  apply (proj1 (X2_merge_in_sequence [("a", "1")] [("b", "2")] [("c", "3")])).
  simpl. apply NoDup_cons. split; [|apply NoDup_singleton].
  intros Hin. apply list_elem_of_singleton in Hin. discriminate.
Defined.

Example merge_same_key_twice :
  (let* _ := _update_dict_nocollision [("a", "1")] in
   _update_dict_nocollision [("a", "2")]) []
  = ([("a", "2")], Raise (XMLParsingError {["a"]})).
Proof. reflexivity. Qed.

(** X3. A merge that succeeds on a target with unique keys leaves a dict
    with unique keys: the keys of the target in their order, then the keys
    of the addition in their order, every entry of either under its own
    value. *)
Theorem X3_merge_success_keeps_entries (target addition target' : dict) :
  NoDup (keys target) ->
  _update_dict_nocollision addition target = (target', Ok tt) ->
  NoDup (keys target')
  /\ keys target' = keys target ++ keys addition
  /\ (forall k v, (k, v) ∈ target -> dict_get target' k = Some v)
  /\ (forall k v, (k, v) ∈ addition -> dict_get target' k = Some v).
Proof.
  intros Hnd1 Hrun. apply nocollision_ok in Hrun as (Hnd2 & Hdis & ->).
  assert (NoDup (keys (target ++ addition))) as Hnd
    by (by apply NoDup_keys_app).
  split; [done|]. split; [apply keys_app|].
  split; intros k v Hin; apply dict_get_elem; try done;
    apply elem_of_app; auto.
Qed.

Lemma X3_merge_success_keeps_entries_witness :
  NoDup (keys [("a", "1"); ("b", "2")])
  /\ keys [("a", "1"); ("b", "2")] = keys [("a", "1")] ++ keys [("b", "2")]
  /\ (forall k v, (k, v) ∈ [("a", "1")] ->
      dict_get [("a", "1"); ("b", "2")] k = Some v)
  /\ (forall k v, (k, v) ∈ [("b", "2")] ->
      dict_get [("a", "1"); ("b", "2")] k = Some v).
Proof.
  apply (X3_merge_success_keeps_entries [("a", "1")] [("b", "2")]).
  - apply NoDup_singleton.
  - reflexivity.
Defined.

(** X4. The merger raises nothing but the key-collision error.  When it
    raises, the target has gone through the whole update and the error
    carries the keys of the addition, all of them, the shared keys among
    them. *)
Theorem X4_merge_error_keys (target addition target' : dict) (e : exn) :
  _update_dict_nocollision addition target = (target', Raise e) ->
  e = XMLParsingError (list_to_set (keys addition))
  /\ target' = dict_update target addition
  /\ (forall k, k ∈ keys target -> k ∈ keys addition ->
      k ∈ (list_to_set (keys addition) : gset string)).
Proof.
  intros Hrun.
  destruct (decide (NoDup (keys addition))) as [Hnd|Hdup].
  - destruct (keys_disjoint_or_shared target addition) as [Hdis|Hsh].
    + assert (_update_dict_nocollision addition target
              = (target ++ addition, Ok tt)) as Hok
        by (by apply nocollision_ok).
      congruence.
    + rewrite nocollision_raise in Hrun.
      * injection Hrun as <- <-. repeat split.
        intros k _ Hk. by apply elem_of_list_to_set.
      * intros [_ Hdis]. destruct Hsh as (k & H1 & H2). exact (Hdis k H1 H2).
  - rewrite nocollision_raise in Hrun by tauto.
    injection Hrun as <- <-. repeat split.
    intros k _ Hk. by apply elem_of_list_to_set.
Qed.

Lemma X4_merge_error_keys_witness :
  XMLParsingError {["a"; "b"]}
  = XMLParsingError (list_to_set (keys [("a", "2"); ("b", "3")]))
  /\ [("a", "2"); ("b", "3")] = dict_update [("a", "1")] [("a", "2"); ("b", "3")]
  /\ (forall k, k ∈ keys [("a", "1")] -> k ∈ keys [("a", "2"); ("b", "3")] ->
      k ∈ (list_to_set (keys [("a", "2"); ("b", "3")]) : gset string)).
Proof.
  apply (X4_merge_error_keys [("a", "1")] [("a", "2"); ("b", "3")]).
  reflexivity.
Defined.

(** * Further properties of tags *)

(** X5. With the namespace removed, a tag that is returned holds neither
    brace and is the end of the tag it comes from, the part after the last
    closing brace when the tag has one and the whole tag otherwise. *)
Theorem X5_process_tag_local_name (tag t : string) :
  _process_tag tag true = Ok t ->
  str_in "{" t = false /\ str_in "}" t = false
  /\ (tag = t \/ exists ns, tag = ns +:+ "}" +:+ t).
Proof.
  unfold _process_tag.
  destruct (rpartition_char "}" tag) as (h & m & t' & -> & Heq & Hno & Hm).
  destruct (str_in "{" t' || str_in "}" t') eqn:Hbr; [done|].
  intros [= <-]. apply orb_false_iff in Hbr as [Hopen Hclose].
  split; [done|]. split; [done|].
  destruct Hm as [->|[-> ->]]; [right; by exists h|by left].
Qed.

Lemma X5_process_tag_local_name_witness :
  str_in "{" "item" = false /\ str_in "}" "item" = false
  /\ ("{http://x}item" = "item"
      \/ exists ns, "{http://x}item" = ns +:+ "}" +:+ "item").
Proof. apply (X5_process_tag_local_name "{http://x}item" "item"). reflexivity. Defined.

(** X6. Removing the namespace twice is removing it once: a tag returned
    with the namespace removed is returned as it is, with or without the
    removal. *)
Theorem X6_process_tag_idempotent (tag t : string) (rm_namespace : bool) :
  _process_tag tag true = Ok t -> _process_tag t rm_namespace = Ok t.
Proof.
  unfold _process_tag.
  destruct (rpartition_char "}" tag) as (h & m & t' & -> & _ & Hno & _).
  destruct (str_in "{" t' || str_in "}" t') eqn:Hbr; [done|].
  intros [= <-]. destruct rm_namespace; [|done].
  rewrite rpartition_absent by done. by rewrite Hbr.
Qed.

Lemma X6_process_tag_idempotent_witness : _process_tag "item" true = Ok "item".
Proof. apply (X6_process_tag_idempotent "{http://x}item" "item" true). reflexivity. Defined.

(** X7. A tag [{ns}local] whose local name holds no brace loses its
    namespace, whatever the namespace, braces inside it included. *)
Theorem X7_process_tag_qualified (ns local : string) :
  str_in "{" local = false -> str_in "}" local = false ->
  _process_tag ("{" +:+ ns +:+ "}" +:+ local) true = Ok local.
Proof.
  intros Hopen Hclose. unfold _process_tag.
  change ("{" +:+ ns +:+ "}" +:+ local)
    with (String "{" ns +:+ String "}" local).
  rewrite (rpartition_last_char "}" (String "{" ns) local) by done.
  by rewrite Hopen, Hclose.
Qed.

Lemma X7_process_tag_qualified_witness :
  _process_tag ("{" +:+ "urn:a}b{c" +:+ "}" +:+ "item") true = Ok "item".
Proof. apply (X7_process_tag_qualified "urn:a}b{c" "item"); reflexivity. Defined.

(** X8. Without the removal every tag is returned as it is.  With it, a tag
    without an opening brace is always returned; the only error is the
    assertion error, which carries the part of the tag after its last
    closing brace (the whole tag when it has none), a part that holds an
    opening brace. *)
Theorem X8_process_tag_errors (node_tag : string) (rm_namespace : bool) :
  _process_tag node_tag false = Ok node_tag
  /\ (str_in "{" node_tag = false ->
      exists t, _process_tag node_tag rm_namespace = Ok t)
  /\ (forall e, _process_tag node_tag rm_namespace = Raise e ->
      rm_namespace = true
      /\ exists t,
           e = AssertionError t
           /\ (node_tag = t \/ exists ns, node_tag = ns +:+ "}" +:+ t)
           /\ str_in "}" t = false
           /\ str_in "{" t = true).
Proof.
  split; [done|].
  destruct rm_namespace; [|split; [eauto|done]].
  destruct (after_last_brace_exists node_tag) as (local & Hsplit & Hclose).
  rewrite (process_tag_after_last_brace node_tag local Hsplit Hclose).
  split.
  - intros Hopen.
    assert (str_in "{" local = false) as ->; [|eauto].
    destruct Hsplit as [<-|(ns & ->)]; [done|].
    rewrite !(str_in_char_app "{") in Hopen.
    apply orb_false_iff in Hopen as [_ Hopen].
    by apply orb_false_iff in Hopen as [_ Hopen].
  - intros e. destruct (str_in "{" local) eqn:Hopen; [|done].
    intros [= <-]. split; [done|]. exists local. done.
Qed.

(** * Further properties of the flattener *)

(** X9. Flattening a node into a dict succeeds exactly when flattening it
    into an empty dict succeeds and the flat record obtained there shares no
    key with the dict; the dict is then left with that record appended.  So
    the entries a node contributes do not depend on the dict they are
    merged into. *)
Theorem X9_flatten_appends_flat_record node prefix sep max_depth strip
    rm_namespace skip_child_tag (d d' : dict) :
  _update_dict_from_node node prefix sep max_depth strip rm_namespace
    skip_child_tag d = (d', Ok tt)
  <-> exists f,
        flatten node prefix sep max_depth strip rm_namespace skip_child_tag
        = Ok f
        /\ keys_disjoint d f /\ d' = d ++ f.
Proof.
  rewrite update_dict_from_node_flatten. split.
  - intros (f & Hf & _ & Hdis & ->). eauto.
  - intros (f & Hf & Hdis & ->). exists f. repeat split; try done.
    unfold flatten in Hf.
    destruct (_update_dict_from_node _ _ _ _ _ _ _ []) as [f0 [[]|e]] eqn:Hrun;
      [|done].
    injection Hf as ->.
    apply update_dict_from_node_flatten in Hrun as (f' & _ & Hnd & _ & Heq).
    simpl in Heq. by subst f'.
Qed.

(** X10. Flattening keeps the keys of a dict unique: when it succeeds on a
    dict with unique keys, the dict it leaves has unique keys, and the
    entries that were there are still there, first and unchanged. *)
Theorem X10_flatten_keeps_keys_unique node prefix sep max_depth strip
    rm_namespace skip_child_tag (d d' : dict) :
  NoDup (keys d) ->
  _update_dict_from_node node prefix sep max_depth strip rm_namespace
    skip_child_tag d = (d', Ok tt) ->
  NoDup (keys d')
  /\ (exists f, d' = d ++ f)
  /\ (forall k v, (k, v) ∈ d -> dict_get d' k = Some v).
Proof.
  intros Hnd Hrun.
  apply update_dict_from_node_flatten in Hrun as (f & _ & Hndf & Hdis & ->).
  assert (NoDup (keys (d ++ f))) as Hnd' by (by apply NoDup_keys_app).
  split; [done|]. split; [eauto|].
  intros k v Hin. apply dict_get_elem; [done|]. apply elem_of_app. by left.
Qed.

Lemma X10_flatten_keeps_keys_unique_witness :
  NoDup (keys [("ver", "3"); ("item", "x"); ("a", "1")])
  /\ (exists f, [("ver", "3"); ("item", "x"); ("a", "1")] = [("ver", "3")] ++ f)
  /\ (forall k v, (k, v) ∈ [("ver", "3")] ->
      dict_get [("ver", "3"); ("item", "x"); ("a", "1")] k = Some v).
Proof.
  apply (X10_flatten_keeps_keys_unique
           (mkElement "item" (Some "x") [("a", "1")] [])
           None "_" None true true None [("ver", "3")]).
  - apply NoDup_singleton.
  - reflexivity.
Defined.

(** X11. A depth limit of zero or below stops the descent: the node is
    flattened like the node without its children. *)
Theorem X11_flatten_depth_not_positive node prefix sep n strip rm_namespace
    skip_child_tag (d : dict) :
  n <= 0 ->
  _update_dict_from_node node prefix sep (Some n) strip rm_namespace
    skip_child_tag d
  = _update_dict_from_node (childless node) prefix sep None strip
      rm_namespace None d.
Proof. intros Hn. apply no_descent_childless. by apply descends_depth_0. Qed.

Lemma X11_flatten_depth_not_positive_witness :
  _update_dict_from_node
    (mkElement "row" (Some "t") [] [mkElement "name" (Some "n") [] []])
    None "_" (Some (-3)) true true None []
  = _update_dict_from_node
      (childless (mkElement "row" (Some "t") [] [mkElement "name" (Some "n") [] []]))
      None "_" None true true None [].
Proof. apply X11_flatten_depth_not_positive. lia. Defined.

(** The number of levels below a node. *)
Fixpoint height (node : Element) : nat :=
  match node with
  | mkElement _ _ _ cs =>
      (fix levels (l : list Element) : nat :=
         match l with
         | [] => O
         | c :: l' => Nat.max (S (height c)) (levels l')
         end) cs
  end.

Lemma height_child node_tag node_text node_attrib (cs : list Element) c :
  c ∈ cs -> (height c < height (mkElement node_tag node_text node_attrib cs))%nat.
Proof.
  induction cs as [|c' cs IH]; intros Hin.
  - by apply elem_of_nil in Hin.
  - change (height (mkElement node_tag node_text node_attrib (c' :: cs)))
      with (Nat.max (S (height c'))
              (height (mkElement node_tag node_text node_attrib cs))).
    apply elem_of_cons in Hin as [->|Hin]; [lia|].
    specialize (IH Hin). lia.
Qed.

(** The loop over the children depends on the children only through their
    flattening. *)
Lemma children_block_depth_ext prefix sep max_depth max_depth' strip
    rm_namespace skip_child_tag (cs : list Element) (d : dict) :
  Forall (fun c => forall prefix' d',
            _update_dict_from_node c prefix' sep max_depth strip rm_namespace
              None d'
            = _update_dict_from_node c prefix' sep max_depth' strip
                rm_namespace None d') cs ->
  children_block prefix sep max_depth strip rm_namespace skip_child_tag cs d
  = children_block prefix sep max_depth' strip rm_namespace skip_child_tag cs d.
Proof.
  intros Hcs. revert d. induction Hcs as [|c cs Hc _ IH]; intros d; [done|].
  simpl. unfold child_block. rewrite !bind_assoc.
  apply bind_ext. intros ctag d1.
  destruct (match skip_child_tag with Some _ => _ | None => _ end).
  - rewrite (bind_ext _ _ (fun _ => children_block prefix sep max_depth' strip
                                     rm_namespace skip_child_tag cs) d1)
      by (intros; apply IH).
    unfold bind. by rewrite Hc.
  - apply bind_ext. intros _ d2. apply IH.
Qed.

Lemma depth_at_least_height node sep strip rm_namespace :
  forall n prefix skip_child_tag d,
    Z.of_nat (height node) <= n ->
    _update_dict_from_node node prefix sep (Some n) strip rm_namespace
      skip_child_tag d
    = _update_dict_from_node node prefix sep None strip rm_namespace
        skip_child_tag d.
Proof.
  induction node as [node_tag node_text node_attrib cs IH] using Element_ind.
  intros n prefix skip_child_tag d Hn.
  rewrite !update_dict_from_node_blocks.
  apply bind_ext. intros _ d1. apply bind_ext. intros _ d2.
  destruct cs as [|c cs]; [by rewrite !descends_nil|].
  assert (0 < n) as Hpos.
  { pose proof (height_child node_tag node_text node_attrib (c :: cs) c) as Hc.
    specialize (Hc ltac:(left)). lia. }
  assert (descends (Some n) (c :: cs) = descends None (c :: cs)) as ->.
  { unfold descends. rewrite (proj2 (Z.gtb_lt n 0)) by lia. done. }
  destruct (descends None (c :: cs)); [|done].
  apply children_block_depth_ext.
  rewrite Forall_forall in IH |- *. intros c' Hin prefix' d'.
  apply IH; [done|].
  pose proof (height_child node_tag node_text node_attrib (c :: cs) c' Hin).
  lia.
Qed.

(** X12. A depth limit that is at least the number of levels below the node
    limits nothing: the flattening is that without a limit. *)
Theorem X12_flatten_depth_beyond_height node prefix sep n strip rm_namespace
    skip_child_tag (d : dict) :
  Z.of_nat (height node) <= n ->
  _update_dict_from_node node prefix sep (Some n) strip rm_namespace
    skip_child_tag d
  = _update_dict_from_node node prefix sep None strip rm_namespace
      skip_child_tag d.
Proof. apply depth_at_least_height. Qed.

Lemma X12_flatten_depth_beyond_height_witness :
  _update_dict_from_node
    (mkElement "row" None []
       [mkElement "a" None [] [mkElement "b" (Some "x") [] []]])
    None "_" (Some 2) true true None []
  = _update_dict_from_node
      (mkElement "row" None []
         [mkElement "a" None [] [mkElement "b" (Some "x") [] []]])
      None "_" None true true None [].
Proof. apply X12_flatten_depth_beyond_height. simpl. lia. Defined.

Example depth_1_stops_short :
  _update_dict_from_node
    (mkElement "row" None []
       [mkElement "a" (Some "y") [] [mkElement "b" (Some "x") [] []]])
    None "_" (Some 1) true true None []
  = ([("a", "y")], Ok tt).
Proof. reflexivity. Qed.

(** X13. Skipping a tag that no child carries changes nothing. *)
Theorem X13_skip_absent_tag node_tag node_text node_attrib node_children
    prefix sep max_depth strip rm_namespace s (d : dict) :
  Forall (fun c => _process_tag (tag c) rm_namespace <> Ok s) node_children ->
  _update_dict_from_node
    (mkElement node_tag node_text node_attrib node_children)
    prefix sep max_depth strip rm_namespace (Some s) d
  = _update_dict_from_node
      (mkElement node_tag node_text node_attrib node_children)
      prefix sep max_depth strip rm_namespace None d.
Proof.
  intros Hcs. rewrite !update_dict_from_node_blocks.
  apply bind_ext. intros _ d1. apply bind_ext. intros _ d2.
  destruct (descends max_depth node_children); [|done].
  rewrite children_block_kept. f_equal.
  unfold kept_children. clear d d1 d2.
  induction Hcs as [|c cs Hc _ IH]; [done|].
  rewrite filter_cons_True; [by rewrite IH|].
  unfold skipped. destruct (_process_tag (tag c) rm_namespace) as [ctag|e];
    [|done].
  apply bool_decide_eq_false. congruence.
Qed.

Lemma X13_skip_absent_tag_witness :
  _update_dict_from_node
    (mkElement "row" None [] [mkElement "name" (Some "n") [] []])
    None "_" None true true (Some "line") []
  = _update_dict_from_node
      (mkElement "row" None [] [mkElement "name" (Some "n") [] []])
      None "_" None true true None [].
Proof.
  apply X13_skip_absent_tag. constructor; [discriminate|constructor].
Defined.

(** ** Keys are never removed *)

(** A computation [keeps_keys] when, whatever its outcome, the dict it
    leaves has the keys it found, in their order, and new keys after
    them. *)
Definition keeps_keys (m : M unit) : Prop :=
  forall d d' r, m d = (d', r) -> exists ks, keys d' = keys d ++ ks.

Lemma dict_setitem_keys (d : dict) (k v : string) :
  exists ks, keys (dict_setitem d k v) = keys d ++ ks.
Proof.
  destruct (decide (k ∈ keys d)) as [Hin|Hout].
  - exists []. rewrite dict_setitem_keys_old by done. by rewrite app_nil_r.
  - exists [k]. rewrite dict_setitem_new by done. apply keys_app.
Qed.

Lemma dict_update_keys (d1 d2 : dict) :
  exists ks, keys (dict_update d1 d2) = keys d1 ++ ks.
Proof.
  revert d1. induction d2 as [|[k v] r IH]; intros d1.
  - exists []. simpl. by rewrite app_nil_r.
  - rewrite dict_update_cons. simpl.
    destruct (IH (dict_setitem d1 k v)) as (ks2 & ->).
    destruct (dict_setitem_keys d1 k v) as (ks1 & ->).
    exists (ks1 ++ ks2). by rewrite app_assoc.
Qed.

Lemma keeps_keys_ext (m m' : M unit) :
  (forall d, m d = m' d) -> keeps_keys m' -> keeps_keys m.
Proof. intros Heq Hm d d' r Hrun. rewrite Heq in Hrun. eauto. Qed.

Lemma keeps_keys_ret : keeps_keys (ret tt).
Proof. intros d d' r [= <- _]. exists []. by rewrite app_nil_r. Qed.

Lemma keeps_keys_nocollision (d2 : dict) :
  keeps_keys (_update_dict_nocollision d2).
Proof.
  intros d d' r. unfold _update_dict_nocollision.
  destruct (negb _); intros [= <- _]; apply dict_update_keys.
Qed.

Lemma keeps_keys_bind (m k : M unit) :
  keeps_keys m -> keeps_keys k -> keeps_keys (let* _ := m in k).
Proof.
  intros Hm Hk d d' r Hrun. unfold bind in Hrun.
  destruct (m d) as [d1 [[]|e]] eqn:Hmd.
  - destruct (Hm _ _ _ Hmd) as (ks1 & Hks1).
    destruct (Hk _ _ _ Hrun) as (ks2 & ->).
    exists (ks1 ++ ks2). by rewrite Hks1, app_assoc.
  - injection Hrun as <- _. eauto.
Qed.

Lemma keeps_keys_lift_bind {A} (r : result A) (k : A -> M unit) :
  (forall a, keeps_keys (k a)) -> keeps_keys (let* a := lift r in k a).
Proof.
  intros Hk d d' r' Hrun. unfold bind, lift in Hrun.
  destruct r as [a|e]; simpl in Hrun; [exact (Hk a d d' r' Hrun)|].
  injection Hrun as <- _. exists []. by rewrite app_nil_r.
Qed.

Lemma keeps_keys_children_block prefix sep max_depth strip rm_namespace
    skip_child_tag (cs : list Element) :
  Forall (fun c => forall prefix' max_depth' skip',
            keeps_keys (_update_dict_from_node c prefix' sep max_depth' strip
                          rm_namespace skip')) cs ->
  keeps_keys (children_block prefix sep max_depth strip rm_namespace
                skip_child_tag cs).
Proof.
  induction 1 as [|c cs Hc _ IH]; simpl; [apply keeps_keys_ret|].
  apply keeps_keys_bind; [|exact IH].
  unfold child_block. apply keeps_keys_lift_bind. intros ctag.
  destruct (match skip_child_tag with Some _ => _ | None => _ end);
    [apply Hc|apply keeps_keys_ret].
Qed.

Lemma keeps_keys_update_dict_from_node node sep strip rm_namespace :
  forall prefix max_depth skip_child_tag,
    keeps_keys (_update_dict_from_node node prefix sep max_depth strip
                  rm_namespace skip_child_tag).
Proof.
  induction node as [node_tag node_text node_attrib node_children IH]
    using Element_ind.
  intros prefix max_depth skip_child_tag.
  eapply keeps_keys_ext; [intros d; apply update_dict_from_node_blocks|].
  apply keeps_keys_bind.
  { unfold text_block. destruct node_text as [t|]; [|apply keeps_keys_ret].
    destruct (_ >? _); [|apply keeps_keys_ret].
    apply keeps_keys_lift_bind. intros k. apply keeps_keys_nocollision. }
  apply keeps_keys_bind.
  { unfold attrib_block.
    destruct (_ >? _); [apply keeps_keys_nocollision|apply keeps_keys_ret]. }
  destruct (descends _ _); [|apply keeps_keys_ret].
  apply keeps_keys_children_block.
  eapply Forall_impl; [exact IH|]. simpl. auto.
Qed.

(** X14. Flattening never removes or moves a key: whether it returns or
    raises, the dict it leaves starts with the keys it found, in their
    order. *)
Theorem X14_flatten_never_removes_keys node prefix sep max_depth strip
    rm_namespace skip_child_tag (d d' : dict) (r : result unit) :
  _update_dict_from_node node prefix sep max_depth strip rm_namespace
    skip_child_tag d = (d', r) ->
  (exists ks, keys d' = keys d ++ ks)
  /\ (forall k, k ∈ keys d -> k ∈ keys d').
Proof.
  intros Hrun.
  destruct (keeps_keys_update_dict_from_node node sep strip rm_namespace
              prefix max_depth skip_child_tag d d' r Hrun) as (ks & Hks).
  split; [eauto|]. intros k Hk. rewrite Hks. apply elem_of_app. by left.
Qed.

Lemma X14_flatten_never_removes_keys_witness :
  (exists ks, keys [("z", "0"); ("a", "x"); ("b", "y")] = keys [("z", "0"); ("a", "w")] ++ ks)
  /\ (forall k, k ∈ keys [("z", "0"); ("a", "w")] ->
      k ∈ keys [("z", "0"); ("a", "x"); ("b", "y")]).
Proof.
  apply (X14_flatten_never_removes_keys
           (mkElement "t" None [("a", "x"); ("b", "y")] [])
           None "_" None true true None [("z", "0"); ("a", "w")] _
           (Raise (XMLParsingError {["a"; "b"]}))).
  reflexivity.
Defined.

(** ** Keys under a prefix *)

(** A key is [under] the prefix [p]: it is [p], or [p], the separator and
    more. *)
Definition under (p sep k : string) : Prop :=
  k = p \/ exists rest, k = p +:+ sep +:+ rest.

(** A computation [appends_keys] of a kind when each of its successful runs
    appends entries whose keys are all of that kind. *)
Definition appends_keys (P : string -> Prop) (m : M unit) : Prop :=
  forall d d', m d = (d', Ok tt) ->
    exists f, d' = d ++ f /\ Forall P (keys f).

Lemma under_child (p sep ctag k : string) :
  under (p +:+ sep +:+ ctag) sep k -> under p sep k.
Proof.
  intros [->|(rest & ->)]; right.
  - by exists ctag.
  - exists (ctag +:+ sep +:+ rest). by rewrite !str_append_assoc.
Qed.

Lemma appends_keys_ext P (m m' : M unit) :
  (forall d, m d = m' d) -> appends_keys P m' -> appends_keys P m.
Proof. intros Heq Hm d d' Hrun. rewrite Heq in Hrun. eauto. Qed.

Lemma appends_keys_ret P : appends_keys P (ret tt).
Proof.
  intros d d' [= <-]. exists []. rewrite app_nil_r. split; [done|constructor].
Qed.

Lemma appends_keys_nocollision P (d2 : dict) :
  Forall P (keys d2) -> appends_keys P (_update_dict_nocollision d2).
Proof.
  intros HP d d' Hrun. apply nocollision_ok in Hrun as (_ & _ & ->). eauto.
Qed.

Lemma appends_keys_bind P (m k : M unit) :
  appends_keys P m -> appends_keys P k -> appends_keys P (let* _ := m in k).
Proof.
  intros Hm Hk d d' Hrun. unfold bind in Hrun.
  destruct (m d) as [d1 [[]|e]] eqn:Hmd; [|done].
  destruct (Hm _ _ Hmd) as (f1 & -> & HP1).
  destruct (Hk _ _ Hrun) as (f2 & -> & HP2).
  exists (f1 ++ f2). rewrite app_assoc. split; [done|].
  rewrite keys_app. by apply Forall_app.
Qed.

Lemma appends_keys_lift_bind {A} P (r : result A) (k : A -> M unit) :
  (forall a, r = Ok a -> appends_keys P (k a)) ->
  appends_keys P (let* a := lift r in k a).
Proof.
  intros Hk d d' Hrun. unfold bind, lift in Hrun.
  destruct r as [a|e]; simpl in Hrun; [|done].
  exact (Hk a eq_refl d d' Hrun).
Qed.

Lemma dict_setitem_keys_Forall (P : string -> Prop) (d : dict) (k v : string) :
  Forall P (keys d) -> P k -> Forall P (keys (dict_setitem d k v)).
Proof.
  intros Hd Hk. destruct (decide (k ∈ keys d)) as [Hin|Hout].
  - by rewrite dict_setitem_keys_old.
  - rewrite dict_setitem_new, keys_app by done.
    apply Forall_app. split; [done|]. by constructor.
Qed.

Lemma dict_update_keys_Forall (P : string -> Prop) (d1 d2 : dict) :
  Forall P (keys d1) -> Forall P (keys d2) -> Forall P (keys (dict_update d1 d2)).
Proof.
  revert d1. induction d2 as [|[k v] r IH]; intros d1 H1 H2; [done|].
  simpl in H2. apply Forall_cons in H2 as [Hk H2].
  rewrite dict_update_cons. apply IH; [|done].
  by apply dict_setitem_keys_Forall.
Qed.

Lemma appends_keys_children_block P p sep max_depth strip rm_namespace
    skip_child_tag (cs : list Element) :
  (forall ctag k, under (p +:+ sep +:+ ctag) sep k -> P k) ->
  Forall (fun c => forall p' max_depth' skip',
            appends_keys (under p' sep)
              (_update_dict_from_node c (Some p') sep max_depth' strip
                 rm_namespace skip')) cs ->
  appends_keys P (children_block (Some p) sep max_depth strip rm_namespace
                    skip_child_tag cs).
Proof.
  intros HP. induction 1 as [|c cs Hc _ IH]; simpl;
    [apply appends_keys_ret|].
  apply appends_keys_bind; [|exact IH].
  unfold child_block. apply appends_keys_lift_bind. intros ctag _.
  destruct (match skip_child_tag with Some _ => _ | None => _ end);
    [|apply appends_keys_ret].
  intros d d' Hrun. destruct (Hc _ _ _ d d' Hrun) as (f & -> & Hf).
  exists f. split; [done|]. eapply Forall_impl; [exact Hf|]. apply HP.
Qed.

Lemma appends_keys_update_dict_from_node node sep strip rm_namespace :
  forall p max_depth skip_child_tag,
    appends_keys (under p sep)
      (_update_dict_from_node node (Some p) sep max_depth strip
         rm_namespace skip_child_tag).
Proof.
  induction node as [node_tag node_text node_attrib node_children IH]
    using Element_ind.
  intros p max_depth skip_child_tag.
  eapply appends_keys_ext; [intros d; apply update_dict_from_node_blocks|].
  apply appends_keys_bind.
  { unfold text_block. destruct node_text as [t|]; [|apply appends_keys_ret].
    destruct (_ >? _); [|apply appends_keys_ret].
    apply appends_keys_lift_bind. intros k [= <-].
    apply appends_keys_nocollision. constructor; [by left|constructor]. }
  apply appends_keys_bind.
  { unfold attrib_block. destruct (_ >? _); [|apply appends_keys_ret].
    apply appends_keys_nocollision. unfold dict_of_items.
    apply dict_update_keys_Forall; [constructor|].
    fold (attrib_entries (Some p) sep node_attrib).
    rewrite attrib_entries_keys. apply Forall_fmap, Forall_forall.
    intros k _. right. by exists k. }
  destruct (descends _ _); [|apply appends_keys_ret].
  apply appends_keys_children_block; [|exact IH].
  intros ctag k. apply under_child.
Qed.

(** X15. With a prefix, every key that a successful flattening appends is
    under it: the prefix itself (the text of the node) or the prefix, the
    separator and more (its attributes and everything below it). *)
Theorem X15_flatten_keys_under_prefix node p sep max_depth strip rm_namespace
    skip_child_tag (d d' : dict) :
  _update_dict_from_node node (Some p) sep max_depth strip rm_namespace
    skip_child_tag d = (d', Ok tt) ->
  exists f,
    d' = d ++ f
    /\ Forall (fun k => k = p \/ exists rest, k = p +:+ sep +:+ rest) (keys f).
Proof. apply appends_keys_update_dict_from_node. Qed.

Lemma X15_flatten_keys_under_prefix_witness :
  exists f,
    [("row", "t"); ("row_id", "7"); ("row_name", "n")] = [] ++ f
    /\ Forall (fun k => k = "row" \/ exists rest, k = "row" +:+ "_" +:+ rest)
         (keys f).
Proof.
  apply (X15_flatten_keys_under_prefix
           (mkElement "r" (Some "t") [("id", "7")]
              [mkElement "name" (Some "n") [] []])
           "row" "_" None true true None []).
  reflexivity.
Defined.

(** ** The flat record of a node from those of its children *)

Lemma bind_ok_inv {A B} (m : M A) (k : A -> M B) (d d' : dict) (b : B) :
  bind m k d = (d', Ok b) ->
  exists d1 a, m d = (d1, Ok a) /\ k a d1 = (d', Ok b).
Proof.
  unfold bind. destruct (m d) as [d1 [a|e]]; [eauto|done].
Qed.

(** The children that the loop on line 57 flattens. *)
Definition visited (max_depth : option Z) (rm_namespace : bool)
    (skip_child_tag : option string) (cs : list Element) : list Element :=
  if descends max_depth cs then
    match skip_child_tag with
    | None => cs
    | Some s => kept_children rm_namespace s cs
    end
  else [].

(** A child is flattened to [fc] by the loop: its tag is processed and the
    child is flattened under the prefix of line 60. *)
Definition child_flat (prefix : option string) (sep : string)
    (max_depth : option Z) (strip rm_namespace : bool) (c : Element)
    (fc : dict) : Prop :=
  exists ctag,
    _process_tag (tag c) rm_namespace = Ok ctag
    /\ flatten c
         (match prefix with
          | None => None
          | Some p => Some (p +:+ sep +:+ ctag)
          end) sep max_depth strip rm_namespace None = Ok fc.

Lemma children_block_flat prefix sep max_depth strip rm_namespace
    (cs : list Element) (d d' : dict) :
  children_block prefix sep max_depth strip rm_namespace None cs d = (d', Ok tt)
  -> exists fs,
       Forall2 (child_flat prefix sep max_depth strip rm_namespace) cs fs
       /\ d' = d ++ concat fs.
Proof.
  revert d. induction cs as [|c cs IH]; intros d; simpl.
  - intros [= <-]. exists []. simpl. by rewrite app_nil_r.
  - intros Hrun. apply bind_ok_inv in Hrun as (d1 & [] & Hchild & Hrest).
    unfold child_block in Hchild.
    apply bind_ok_inv in Hchild as (d0 & ctag & Htag & Hrun).
    unfold lift in Htag. injection Htag as <- Htag.
    apply update_dict_from_node_flatten in Hrun as (fc & Hfc & _ & _ & ->).
    destruct (IH _ Hrest) as (fs & Hfs & ->).
    exists (fc :: fs). simpl. rewrite app_assoc. split; [|done].
    constructor; [|done]. exists ctag. done.
Qed.

(** X16. The flat record of a node is the flat record of the node without
    its children followed by the flat records of the children that are
    visited, in document order, each child flattened one level deeper, under
    the prefix extended by the separator and its tag when there is a prefix
    and under no prefix otherwise. *)
Theorem X16_flat_record_of_children node_tag node_text node_attrib
    node_children prefix sep max_depth strip rm_namespace skip_child_tag
    (f : dict) :
  flatten (mkElement node_tag node_text node_attrib node_children)
    prefix sep max_depth strip rm_namespace skip_child_tag = Ok f ->
  exists own fs,
    flatten (mkElement node_tag node_text node_attrib [])
      prefix sep max_depth strip rm_namespace skip_child_tag = Ok own
    /\ Forall2
         (child_flat prefix sep (decrement max_depth) strip rm_namespace)
         (visited max_depth rm_namespace skip_child_tag node_children) fs
    /\ f = own ++ concat fs.
Proof.
  unfold flatten at 1.
  destruct (_update_dict_from_node _ _ _ _ _ _ _ []) as [f0 [[]|e]] eqn:Hrun;
    [|done].
  intros [= ->]. rewrite update_dict_from_node_blocks in Hrun.
  apply bind_ok_inv in Hrun as (d1 & [] & Htext & Hrun).
  apply bind_ok_inv in Hrun as (d2 & [] & Hattrib & Hrun).
  assert (flatten (mkElement node_tag node_text node_attrib [])
            prefix sep max_depth strip rm_namespace skip_child_tag = Ok d2)
    as Hown.
  { unfold flatten. rewrite update_dict_from_node_blocks.
    rewrite (bind_run_ok _ _ _ _ _ Htext).
    rewrite (bind_run_ok _ _ _ _ _ Hattrib).
    by rewrite descends_nil. }
  exists d2. unfold visited.
  destruct (descends max_depth node_children).
  - destruct skip_child_tag as [s|].
    + rewrite children_block_kept in Hrun.
      apply children_block_flat in Hrun as (fs & Hfs & ->). eauto.
    + apply children_block_flat in Hrun as (fs & Hfs & ->). eauto.
  - injection Hrun as <-. exists []. simpl. rewrite app_nil_r.
    split; [done|]. split; [constructor|done].
Qed.

Lemma X16_flat_record_of_children_witness :
  exists own fs,
    flatten (mkElement "row" None [("id", "7")] [])
      (Some "row") "_" None true true (Some "line") = Ok own
    /\ Forall2 (child_flat (Some "row") "_" (decrement None) true true)
         (visited None true (Some "line")
            [mkElement "line" None [("a", "1")] [];
             mkElement "name" (Some "n") [] []]) fs
    /\ [("row_id", "7"); ("row_name", "n")] = own ++ concat fs.
Proof.
  apply (X16_flat_record_of_children "row" None [("id", "7")]
           [mkElement "line" None [("a", "1")] [];
            mkElement "name" (Some "n") [] []]
           (Some "row") "_" None true true (Some "line")).
  reflexivity.
Defined.

(** * The path builder *)

Lemma concat_cons (sep x y : string) (l : list string) :
  String.concat sep (x :: y :: l) = x +:+ sep +:+ String.concat sep (y :: l).
Proof. done. Qed.

Lemma concat_app (sep : string) (l1 l2 : list string) :
  l1 <> [] -> l2 <> [] ->
  String.concat sep (l1 ++ l2)
  = String.concat sep l1 +:+ sep +:+ String.concat sep l2.
Proof.
  intros H1 H2. induction l1 as [|x l1 IH]; [done|].
  destruct l1 as [|y l1].
  - destruct l2 as [|z l2]; [done|]. done.
  - change ((x :: y :: l1) ++ l2) with (x :: y :: (l1 ++ l2)).
    rewrite !concat_cons.
    change (y :: l1 ++ l2) with ((y :: l1) ++ l2).
    rewrite IH by done. by rewrite !str_append_assoc.
Qed.

(** X17. The key prefix of a path is absent exactly for the empty path, is
    the segment itself for a path of one segment, and grows with the path
    the way the flattener extends a prefix for a child: the prefix of a path
    with one more segment is the prefix, the separator and that segment. *)
Theorem X17_prefix_of_longer_path (chunks : list string) (sep c : string) :
  (_list_to_prefix chunks sep = None <-> chunks = [])
  /\ _list_to_prefix [c] sep = Some c
  /\ (forall p, _list_to_prefix chunks sep = Some p ->
      _list_to_prefix (chunks ++ [c]) sep = Some (p +:+ sep +:+ c)).
Proof.
  unfold _list_to_prefix. split; [|split; [done|]].
  - destruct chunks as [|x l]; [done|].
    assert ((Z.of_nat (length (x :: l)) >? 0) = true) as ->
      by (apply Z.gtb_lt; simpl; lia).
    done.
  - intros p. destruct chunks as [|x l]; [done|].
    assert ((Z.of_nat (length (x :: l)) >? 0) = true) as ->
      by (apply Z.gtb_lt; simpl; lia).
    assert ((Z.of_nat (length ((x :: l) ++ [c])) >? 0) = true) as ->
      by (apply Z.gtb_lt; simpl; lia).
    intros [= <-]. f_equal. by rewrite concat_app.
Qed.

(** X18. The path of no segment is empty, the path of one segment is the
    segment qualified by the namespace in braces, and the path of two lists
    of segments put together is their two paths joined by a slash. *)
Theorem X18_path_of_joined_segments (chunks1 chunks2 : list string) (ns c : string) :
  _list_to_path [] ns = ""
  /\ _list_to_path [c] ns = "{" +:+ ns +:+ "}" +:+ c
  /\ (chunks1 <> [] -> chunks2 <> [] ->
      _list_to_path (chunks1 ++ chunks2) ns
      = _list_to_path chunks1 ns +:+ "/" +:+ _list_to_path chunks2 ns).
Proof.
  split; [done|]. split.
  - unfold _list_to_path. simpl. by rewrite !str_append_assoc.
  - intros H1 H2. unfold _list_to_path. rewrite map_app.
    apply concat_app.
    + by destruct chunks1.
    + by destruct chunks2.
Qed.

Example path_of_joined :
  _list_to_path (["a"; "b"] ++ ["c"]) "*" = "{*}a/{*}b/{*}c".
Proof. reflexivity. Qed.

(** * Further properties of the validator *)

Lemma validate_from_app (i : nat) (records1 records2 : list dict)
    (expected_keys : list string) :
  validate_from i (records1 ++ records2) expected_keys
  = match validate_from i records1 expected_keys with
    | Ok _ => validate_from (i + length records1) records2 expected_keys
    | Raise e => Raise e
    end.
Proof.
  revert i. induction records1 as [|r rest IH]; intros i; simpl.
  - f_equal. lia.
  - destruct (negb _); [done|]. rewrite IH. simpl.
    destruct (validate_from (S i) rest expected_keys); [|done].
    f_equal. lia.
Qed.

Lemma validate_from_shift (n i : nat) (records : list dict)
    (expected_keys : list string) :
  validate_from (n + i) records expected_keys
  = match validate_from i records expected_keys with
    | Raise (XMLValidationError j ks ks') =>
        Raise (XMLValidationError (n + j) ks ks')
    | other => other
    end.
Proof.
  revert i. induction records as [|r rest IH]; intros i; simpl; [done|].
  destruct (negb _); [done|].
  replace (S (n + i)) with (n + S i)%nat by lia. apply IH.
Qed.

(** X19. Validating two batches put together: it succeeds exactly when both
    batches validate; an error of the first batch is the error of the whole;
    and when the first batch validates, an error of the second batch is the
    error of the whole with the record index counted from the start of the
    first batch. *)
Theorem X19_validate_batches (records1 records2 : list dict)
    (expected_keys : list string) :
  (validate (records1 ++ records2) expected_keys = Ok tt
   <-> validate records1 expected_keys = Ok tt
       /\ validate records2 expected_keys = Ok tt)
  /\ (forall e, validate records1 expected_keys = Raise e ->
      validate (records1 ++ records2) expected_keys = Raise e)
  /\ (forall i ks ks',
        validate records1 expected_keys = Ok tt ->
        validate records2 expected_keys
        = Raise (XMLValidationError i ks ks') ->
        validate (records1 ++ records2) expected_keys
        = Raise (XMLValidationError (length records1 + i) ks ks')).
Proof.
  unfold validate. rewrite validate_from_app. simpl.
  split; [|split].
  - destruct (validate_from 0 records1 expected_keys) as [[]|e] eqn:H1.
    + rewrite (validate_from_all (length records1)), (validate_from_all 0).
      tauto.
    + split; [done|]. intros [H _]. done.
  - intros e ->. done.
  - intros i ks ks' -> H2.
    replace (length records1) with (length records1 + 0)%nat at 1 by lia.
    by rewrite validate_from_shift, H2.
Qed.

(** * Further properties of the assembler *)

Section ParseMore.

Variable findall : Element -> string -> list Element.
Variables (sep : string) (strip_text remove_namespace : bool)
          (namespace : string).

Local Abbreviation run node prefix max_depth skip :=
  (_update_dict_from_node node prefix sep max_depth strip_text
     remove_namespace skip).
Local Abbreviation flat node prefix max_depth skip :=
  (flatten node prefix sep max_depth strip_text remove_namespace skip).
Local Abbreviation parse_meta' :=
  (parse_meta findall sep strip_text remove_namespace namespace).
Local Abbreviation parse_rows' :=
  (parse_rows findall sep strip_text remove_namespace namespace).
Local Abbreviation parse' :=
  (parse findall sep strip_text remove_namespace namespace).
Local Abbreviation rows_prefix_of' := (rows_prefix_of sep).

Lemma parse_meta_NoDup tree meta_prefix meta_max_depth meta_paths meta_d :
  parse_meta' tree meta_prefix meta_max_depth meta_paths [] = (meta_d, Ok tt) ->
  NoDup (keys meta_d).
Proof.
  intros Hmeta. apply parse_meta_records in Hmeta as (fs & _ & Hnd & _ & ->).
  done.
Qed.

Lemma run_NoDup node prefix max_depth skip (d d' : dict) :
  NoDup (keys d) -> run node prefix max_depth skip d = (d', Ok tt) ->
  NoDup (keys d').
Proof.
  intros Hnd Hrun.
  apply update_dict_from_node_flatten in Hrun as (f & _ & Hndf & Hdis & ->).
  by apply NoDup_keys_app.
Qed.

(** X20. Without a subrow tag, [parse] returns exactly when the metadata
    loop succeeds and the records are, one per row node in the order of
    [findall], the metadata dict followed by the flat record of the row,
    with no key twice.  So a returned list has as many records as there are
    row nodes. *)
Theorem X20_one_record_per_row tree rows_path meta_paths rows_prefix
    meta_prefix rows_max_depth meta_max_depth (records : list dict) :
  parse' tree rows_path None meta_paths rows_prefix meta_prefix
    rows_max_depth meta_max_depth = Ok records
  <-> exists meta_d,
        parse_meta' tree meta_prefix meta_max_depth
          (meta_paths_of meta_paths) [] = (meta_d, Ok tt)
        /\ Forall2 (fun r_node record =>
             exists row_f,
               flat r_node (rows_prefix_of' rows_prefix rows_path)
                 rows_max_depth None = Ok row_f
               /\ record = meta_d ++ row_f
               /\ NoDup (keys record))
             (findall tree (_list_to_path rows_path namespace)) records.
Proof.
  rewrite parse_ok. split.
  - intros (meta_d & Hmeta & Hrows). exists meta_d. split; [done|].
    pose proof (parse_meta_NoDup _ _ _ _ _ Hmeta) as Hnd.
    apply parse_rows_records in Hrows as (news & -> & Hnews). simpl.
    eapply Forall2_impl; [exact Hnews|].
    intros r record Hrow. simpl in Hrow.
    pose proof (run_NoDup _ _ _ _ _ _ Hnd Hrow) as Hnd'.
    apply update_dict_from_node_flatten in Hrow as (f & Hf & _ & _ & ->).
    eauto.
  - intros (meta_d & Hmeta & Hall). exists meta_d. split; [done|].
    apply parse_rows_records. exists records. split; [done|].
    eapply Forall2_impl; [exact Hall|].
    intros r record (f & Hf & -> & Hnd). simpl in Hf.
    apply NoDup_keys_app in Hnd as (_ & Hdis & Hndf).
    apply update_dict_from_node_flatten. eauto.
Qed.

Lemma parse_rows_app meta_d subrow_tag prefix rows_max_depth
    (rows1 rows2 : list Element) (records : list dict) :
  parse_rows' meta_d subrow_tag prefix rows_max_depth (rows1 ++ rows2) records
  = match parse_rows' meta_d subrow_tag prefix rows_max_depth rows1 records with
    | Ok records' =>
        parse_rows' meta_d subrow_tag prefix rows_max_depth rows2 records'
    | Raise e => Raise e
    end.
Proof.
  revert records. induction rows1 as [|r rest IH]; intros records; simpl;
    [done|].
  destruct (run r prefix rows_max_depth subrow_tag meta_d) as [row_d [[]|e]];
    [|done].
  destruct subrow_tag as [t|]; [|apply IH].
  destruct (parse_subrows _ _ _ _ _ _ _ _) as [records'|e]; [apply IH|done].
Qed.

(** X23. The first row that fails ends [parse]: when the metadata loop and
    the row nodes before a row succeed and flattening that row into the
    metadata dict raises, [parse] raises that error, whatever row nodes
    follow, and returns no record of the rows before. *)
Theorem X23_first_failing_row tree rows_path subrow_tag meta_paths
    rows_prefix meta_prefix rows_max_depth meta_max_depth
    meta_d (before : list Element) r_node (after : list Element)
    (records : list dict) (row_d : dict) (e : exn) :
  parse_meta' tree meta_prefix meta_max_depth (meta_paths_of meta_paths) []
  = (meta_d, Ok tt) ->
  findall tree (_list_to_path rows_path namespace)
  = before ++ r_node :: after ->
  parse_rows' meta_d subrow_tag (rows_prefix_of' rows_prefix rows_path)
    rows_max_depth before [] = Ok records ->
  run r_node (rows_prefix_of' rows_prefix rows_path) rows_max_depth
    subrow_tag meta_d = (row_d, Raise e) ->
  parse' tree rows_path subrow_tag meta_paths rows_prefix meta_prefix
    rows_max_depth meta_max_depth = Raise e.
Proof.
  intros Hmeta Hrows Hbefore Hrow. unfold parse.
  fold (meta_paths_of meta_paths). rewrite Hmeta, Hrows.
  fold (rows_prefix_of' rows_prefix rows_path).
  rewrite parse_rows_app, Hbefore. simpl. by rewrite Hrow.
Qed.

Lemma Forall2_elem_of_l {A B} (Q : A -> B -> Prop) (l : list A) (k : list B) x :
  Forall2 Q l k -> x ∈ l -> exists y, Q x y.
Proof.
  induction 1 as [|a b l k Hab _ IH]; intros Hin.
  - by apply elem_of_nil in Hin.
  - apply elem_of_cons in Hin as [->|Hin]; eauto.
Qed.

(** X24. A row whose flat record shares a key with the metadata dict makes
    [parse] raise: when the metadata loop succeeds, no list of records is
    returned if some row node has a flat record with a key of the metadata
    dict. *)
Theorem X24_metadata_row_collision tree rows_path subrow_tag meta_paths
    rows_prefix meta_prefix rows_max_depth meta_max_depth
    meta_d r_node (row_f : dict) (k : string) :
  parse_meta' tree meta_prefix meta_max_depth (meta_paths_of meta_paths) []
  = (meta_d, Ok tt) ->
  r_node ∈ findall tree (_list_to_path rows_path namespace) ->
  flat r_node (rows_prefix_of' rows_prefix rows_path) rows_max_depth
    subrow_tag = Ok row_f ->
  k ∈ keys meta_d -> k ∈ keys row_f ->
  exists e,
    parse' tree rows_path subrow_tag meta_paths rows_prefix meta_prefix
      rows_max_depth meta_max_depth = Raise e.
Proof.
  intros Hmeta Hin Hflat Hk1 Hk2.
  destruct (parse' tree rows_path subrow_tag meta_paths rows_prefix
              meta_prefix rows_max_depth meta_max_depth)
    as [records|e] eqn:Hparse; [|eauto].
  exfalso. apply parse_ok in Hparse as (meta_d' & Hmeta' & Hrows).
  rewrite Hmeta in Hmeta'. injection Hmeta' as <-.
  assert (exists row_d,
            run r_node (rows_prefix_of' rows_prefix rows_path) rows_max_depth
              subrow_tag meta_d = (row_d, Ok tt)) as (row_d & Hrow).
  { destruct subrow_tag as [t|].
    - apply parse_rows_subrow_records in Hrows as (groups & _ & Hgroups).
      destruct (Forall2_elem_of_l _ _ _ _ Hgroups Hin)
        as (group & row_d & Hrow & _). eauto.
    - apply parse_rows_records in Hrows as (news & _ & Hnews).
      destruct (Forall2_elem_of_l _ _ _ _ Hnews Hin) as (row_d & Hrow). eauto. }
  apply update_dict_from_node_flatten in Hrow as (f & Hf & _ & Hdis & _).
  rewrite Hflat in Hf. injection Hf as <-. exact (Hdis k Hk1 Hk2).
Qed.

(** X25. With a subrow tag, a returned list has as many records as there
    are subrow nodes below the row nodes. *)
Theorem X25_one_record_per_subrow_count tree rows_path t meta_paths
    rows_prefix meta_prefix rows_max_depth meta_max_depth
    (records : list dict) :
  parse' tree rows_path (Some t) meta_paths rows_prefix meta_prefix
    rows_max_depth meta_max_depth = Ok records ->
  length records
  = sum_list (map (fun r_node =>
                     length (findall r_node (_list_to_path [t] namespace)))
                (findall tree (_list_to_path rows_path namespace))).
Proof.
  intros Hparse. apply parse_ok in Hparse as (meta_d & _ & Hrows).
  apply parse_rows_subrow_records in Hrows as (groups & -> & Hgroups).
  simpl.
  induction Hgroups as [|r group rs groups (row_d & _ & Hsubs) _ IH];
    [done|].
  simpl. rewrite length_app, IH.
  apply Forall2_length in Hsubs. by rewrite Hsubs.
Qed.

End ParseMore.

(** ** The further properties on small documents *)

(** [<root><meta><ver>3</ver></meta>
      <row id="1"/><row ver="9"/><row id="3"/></root>]: the second row has
    an attribute named like the metadata field. *)
Definition clash_row : Element := mkElement "row" None [("ver", "9")] [].

Definition clash_tree : Element :=
  mkElement "root" None []
    [mkElement "meta" None [] [mkElement "ver" (Some "3") [] []];
     mkElement "row" None [("id", "1")] [];
     clash_row;
     mkElement "row" None [("id", "3")] []].

Lemma X23_first_failing_row_witness :
  parse et_findall "_" true true "*" clash_tree ["row"] None
    (Some [["meta"]]) false false None None
  = Raise (XMLParsingError {["ver"]}).
Proof.
  apply (X23_first_failing_row et_findall "_" true true "*" clash_tree
           ["row"] None (Some [["meta"]]) false false None None
           [("ver", "3")] [mkElement "row" None [("id", "1")] []] clash_row
           [mkElement "row" None [("id", "3")] []]
           [[("ver", "3"); ("id", "1")]] [("ver", "9")]).
  - reflexivity.
  - reflexivity.
  - reflexivity.
  - reflexivity.
Defined.

Lemma X24_metadata_row_collision_witness :
  exists e,
    parse et_findall "_" true true "*" clash_tree ["row"] None
      (Some [["meta"]]) false false None None = Raise e.
Proof.
  apply (X24_metadata_row_collision et_findall "_" true true "*" clash_tree
           ["row"] None (Some [["meta"]]) false false None None
           [("ver", "3")] clash_row [("ver", "9")] "ver").
  - reflexivity.
  - assert (et_findall clash_tree (_list_to_path ["row"] "*")
            = [mkElement "row" None [("id", "1")] []; clash_row;
               mkElement "row" None [("id", "3")] []]) as -> by reflexivity.
    apply elem_of_cons. right. apply elem_of_cons. by left.
  - reflexivity.
  - simpl. apply elem_of_cons. by left.
  - simpl. apply elem_of_cons. by left.
Defined.

Lemma X25_one_record_per_subrow_count_witness :
  length [[("ver", "3"); ("id", "7"); ("name", "n"); ("a", "1")];
          [("ver", "3"); ("id", "7"); ("name", "n"); ("line", "x"); ("b", "2")]]
  = sum_list (map (fun r_node =>
                     length (et_findall r_node (_list_to_path ["line"] "*")))
                (et_findall example_tree (_list_to_path ["row"] "*"))).
Proof.
  apply (X25_one_record_per_subrow_count et_findall "_" true true "*"
           example_tree ["row"] "line" (Some [["meta"]]) false false
           None None).
  reflexivity.
Defined.
